(** * Runtime requirement estimation for GGUF models

    A shallow embedding of [packages/gguf/src/estimator.ts] and the
    properties of [estimateRuntimeRequirement].

    JavaScript numbers are IEEE-754 binary64 values: they are modelled by
    Rocq's primitive floats, whose operations are the same binary64
    operations (round to nearest, ties to even).  A [bigint] is a [Z]. *)

From Stdlib Require Import Ascii String ZArith Bool List Lia Floats.
From Stdlib Require Uint63 Strings.Byte.
From stdpp Require Import base option list gmap strings.
From Equations Require Import Equations.

Set Warnings "-inexact-float".

Open Scope float_scope.

(** ** JavaScript values and built-ins used by the estimator *)

Module JS.

(** What a [throw] (of the code or of a built-in) carries. *)
Inductive Exception :=
| Error (message : string)
| RangeError (message : string).

(** The outcome of a call. [Mistyped] marks a run on which an [as] cast of
    the source does not hold: TypeScript erases the cast, and the code
    is only meant for values of the asserted type. *)
Inductive Outcome (A : Type) :=
| Returns (a : A)
| Throws (e : Exception)
| Mistyped (key : string).
Arguments Returns {A} a.
Arguments Throws {A} e.
Arguments Mistyped {A} key.

#[export] Instance Outcome_ret : MRet Outcome := fun A a => Returns a.
#[export] Instance Outcome_bind : MBind Outcome := fun A B k m =>
  match m with
  | Returns a => k a
  | Throws e => Throws e
  | Mistyped key => Mistyped key
  end.
#[export] Instance Outcome_fmap : FMap Outcome := fun A B f m =>
  a ← m; Returns (f a).

(** Truthiness of a number: everything but [+0], [-0] and [NaN]. *)
Definition truthy (x : float) : bool := negb (is_zero x || is_nan x).

Definition is_pos_zero (x : float) : bool := is_zero x && negb (get_sign x).
Definition is_neg_zero (x : float) : bool := is_zero x && get_sign x.

(** [Math.min]: the loop of the language standard over the arguments,
    starting from [+Infinity]; any [NaN] argument gives [NaN], and [-0]
    counts as smaller than [+0]. *)
Definition min_step (lowest number : float) : float :=
  if is_pos_zero lowest && is_neg_zero number then neg_zero
  else if number <? lowest then number
  else lowest.

Definition Math_min (x y : float) : float :=
  if is_nan x || is_nan y then nan
  else min_step (min_step infinity x) y.

(** [Math.max], likewise from [-Infinity], with [+0] larger than [-0]. *)
Definition max_step (highest number : float) : float :=
  if is_neg_zero highest && is_pos_zero number then zero
  else if highest <? number then number
  else highest.

Definition Math_max (x y : float) : float :=
  if is_nan x || is_nan y then nan
  else max_step (max_step neg_infinity x) y.

(** [Number(b)] for a bigint [b]: the nearest binary64 value, ties to
    even, infinite beyond the range. *)
Definition Number_of_bigint (b : Z) : float :=
  SF2Prim (binary_normalize prec emax b 0 false).

(** The integer a number denotes, when it is one. *)
Definition integer_value (x : float) : option Z :=
  match Prim2SF x with
  | S754_zero _ => Some 0%Z
  | S754_finite s m e =>
      let v :=
        if (0 <=? e)%Z then Some (Z.pos m * 2 ^ e)%Z
        else if (Z.pos m mod 2 ^ (- e) =? 0)%Z then Some (Z.pos m / 2 ^ (- e))%Z
        else None in
      if s then Z.opp <$> v else v
  | _ => None
  end.

(** [Array(len)] for a number [len]: an array of [len] slots when [len]
    is an integer of [0 .. 2^32 - 1], a [RangeError] otherwise. Only the
    length is kept here. *)
Definition Array_length (len : float) : Outcome nat :=
  match integer_value len with
  | Some v =>
      if (0 <=? v)%Z && (v <? 2 ^ 32)%Z then Returns (Z.to_nat v)
      else Throws (RangeError "Invalid array length")
  | None => Throws (RangeError "Invalid array length")
  end.

(** [arr[i]] used as a number: [undefined] past the end, which
    arithmetic turns into [NaN]. *)
Definition index_number (arr : list float) (i : nat) : float :=
  default nan (arr !! i).

Definition dquote : string := String "034"%char EmptyString.

End JS.

Import JS.

(** ** Data model *)

(** A metadata value, as far as the estimator reads one: a string, a
    number or an array of numbers. *)
Inductive MetadataValue :=
| MString (s : string)
| MNumber (x : float)
| MNumbers (xs : list float).

(** The casts of the source, [v as T]. *)
Definition as_string (key : string) (v : MetadataValue) : Outcome string :=
  match v with MString s => Returns s | _ => Mistyped key end.

Definition as_number (key : string) (v : MetadataValue) : Outcome float :=
  match v with MNumber x => Returns x | _ => Mistyped key end.

Definition as_numbers_or_number (key : string) (v : MetadataValue)
  : Outcome (list float + float) :=
  match v with
  | MNumbers xs => Returns (inl xs)
  | MNumber x => Returns (inr x)
  | MString _ => Mistyped key
  end.

(** [(metadata[key] as T) ?? d] *)
Definition lookup_or {T} (cast : string -> MetadataValue -> Outcome T)
    (metadata : gmap string MetadataValue) (key : string) (d : T) : Outcome T :=
  match metadata !! key with
  | Some v => cast key v
  | None => Returns d
  end.

Record Memory := {
  perToken : float; (* in megabytes *)
  weight : float;   (* in megabytes *)
}.

Record Compute := {
  gFloatOps : float; (* in gigaflops, per token *)
}.

Record RuntimeRequirementEstimation := {
  memory : Memory;
  compute : Compute;
}.

Definition TO_MEGA : float := 1e-6.
Definition TO_GIGA : float := 1e-9.

(** The variables the source reads from the metadata, with the types its
    casts give them. *)
Record Hparams := {
  arch : string;
  n_embd : float;
  n_head : float;
  n_embd_head_k : float;
  n_embd_head_v : float;
  n_head_kv : list float + float;
  n_layer : float;
  n_expert : float;
  n_expert_used : float;
  n_ff : float;
  n_vocab : float;
}.

(** Line 40: the architectures the estimator refuses. *)
Definition unsupported (arch : string) : bool :=
  String.prefix "mamba" arch || String.prefix "rwkv" arch.

(** Line 41: the message of the error thrown for them. *)
Definition unsupported_message (arch : string) : string :=
  "Memory usage estimation for arch " +:+ dquote +:+ arch +:+ dquote +:+ " is not supported".

(** Lines 44-55: [Array(n_layer).fill(n_head)], then one pass over the
    layers that overwrites slot [i]. *)
Definition n_head_kv_arr (n_layer : nat) (n_head : float)
    (n_head_kv : list float + float) : list float :=
  let filled := replicate n_layer n_head in
  match n_head_kv with
  | inl arr =>
      fold_left (fun (a : list float) (i : nat) =>
                   match arr !! i with
                   | Some x => if truthy x then <[i := x]> a else a
                   | None => a
                   end) (seq 0 n_layer) filled
  | inr x =>
      fold_left (fun (a : list float) (i : nat) => <[i := x]> a) (seq 0 n_layer) filled
  end.

(** Lines 83-86. *)
Definition moe_ratio (n_expert_used n_expert : float) : float :=
  Math_max 1 (Math_min 1 n_expert_used / Math_min 1 n_expert).

Definition floatOpsMatMul (x y z : float) : float := 2 * x * y * z.

(** Lines 91-95: the body of the compute loop, from [floatOpsLayer = 0]. *)
Definition floatOpsLayer (n_embd n_ff moe_ratio : float) : float :=
  let floatOpsLayer := 0 in
  let floatOpsLayer := floatOpsLayer + 1000 * n_embd in
  let floatOpsLayer := floatOpsLayer + 4 * 3 * n_embd * n_embd in
  let floatOpsLayer := floatOpsLayer + 4 * 2 * n_embd * n_ff * moe_ratio in
  floatOpsLayer.

(** Lines 89-97: the compute loop alone. *)
Definition gFloatOps_layers (n_layer : nat) (n_embd n_ff moe_ratio : float) : float :=
  fold_left (fun (gFloatOps : float) (i : nat) =>
               gFloatOps + floatOpsLayer n_embd n_ff moe_ratio * TO_GIGA)
            (seq 0 n_layer) 0.

Section Estimator.

(** The quantization types and their bit widths come from
    [@huggingface/tasks] and [./quant-descriptions]; the estimator only
    names [F16] and indexes the table. *)
Variable GGMLQuantizationType : Type.
Variable F16 : GGMLQuantizationType.
Variable GGML_QUANT_SIZES : GGMLQuantizationType -> float.

Record RuntimeConfig := {
  kvTypeK : option GGMLQuantizationType;
  kvTypeV : option GGMLQuantizationType;
}.

Record TensorInfo := {
  name : string;
  shape : list Z;
  dtype : GGMLQuantizationType;
}.

(** Lines 58-65: both cache totals, accumulated in one loop. *)
Definition cacheMBytes (n_layer : nat) (n_embd_head_k n_embd_head_v : float)
    (n_head_kv_arr : list float) (kvTypeK kvTypeV : GGMLQuantizationType)
  : float * float :=
  fold_left (fun '(cacheMBytesK, cacheMBytesV) (i : nat) =>
               let n_embd_k_gqa := n_embd_head_k * index_number n_head_kv_arr i in
               let n_embd_v_gqa := n_embd_head_v * index_number n_head_kv_arr i in
               (cacheMBytesK + n_embd_k_gqa * (GGML_QUANT_SIZES kvTypeK / 8) * TO_MEGA,
                cacheMBytesV + n_embd_v_gqa * (GGML_QUANT_SIZES kvTypeV / 8) * TO_MEGA))
            (seq 0 n_layer) (0, 0).

(** Lines 68-73: the weight total over [tensorInfos || []]. *)
Definition mBytesWeight (tensorInfos : option (list TensorInfo)) : float :=
  fold_left (fun (mBytesWeight : float) (tensorInfo : TensorInfo) =>
               let nElem := Number_of_bigint (fold_left Z.mul (shape tensorInfo) 1%Z) in
               let tensorSizeInBytes := nElem * (GGML_QUANT_SIZES (dtype tensorInfo) / 8) in
               mBytesWeight + tensorSizeInBytes * TO_MEGA)
            (default [] tensorInfos) 0.

Definition estimateRuntimeRequirement (config : RuntimeConfig)
    (metadata : gmap string MetadataValue)
    (tensorInfos : option (list TensorInfo))
  : Outcome RuntimeRequirementEstimation :=
  let kvTypeK := default F16 (kvTypeK config) in
  let kvTypeV := default F16 (kvTypeV config) in
  (* for calculating memory usage *)
  arch ← lookup_or as_string metadata "general.architecture" "unknown";
  (* the reads of lines 33-38 cannot throw: line 40 is decided by [arch] *)
  if unsupported arch then Throws (Error (unsupported_message arch)) else
  n_embd ← lookup_or as_number metadata (arch +:+ ".embedding_length") 0;
  n_head ← lookup_or as_number metadata (arch +:+ ".attention.head_count") 0;
  n_embd_head_k ← lookup_or as_number metadata (arch +:+ ".attention.key_length") (n_embd / n_head);
  n_embd_head_v ← lookup_or as_number metadata (arch +:+ ".attention.value_length") (n_embd / n_head);
  n_head_kv ← lookup_or as_numbers_or_number metadata (arch +:+ ".attention.head_count_kv") (inl []);
  n_layer ← lookup_or as_number metadata (arch +:+ ".block_count") 0;
  len ← Array_length n_layer;
  let n_head_kv_arr := n_head_kv_arr len n_head n_head_kv in
  (* calculate total bytes for K and V *)
  let '(cacheMBytesK, cacheMBytesV) :=
    cacheMBytes len n_embd_head_k n_embd_head_v n_head_kv_arr kvTypeK kvTypeV in
  (* calculate total bytes for model weight *)
  let mBytesWeight := mBytesWeight tensorInfos in
  (* for calculating compute requirement *)
  n_expert ← lookup_or as_number metadata (arch +:+ ".expert_count") 1;
  n_expert_used ← lookup_or as_number metadata (arch +:+ ".expert_used_count") 1;
  n_ff ← lookup_or as_number metadata (arch +:+ ".feed_forward_length") 1;
  n_vocab ← lookup_or as_number metadata (arch +:+ ".vocab_size") 1;
  let moe_ratio := moe_ratio n_expert_used n_expert in
  (* calculate total float ops per token *)
  let gFloatOps := gFloatOps_layers len n_embd n_ff moe_ratio in
  let gFloatOps := gFloatOps + floatOpsMatMul n_embd n_vocab 1 * TO_GIGA in
  Returns {|
    memory := {| perToken := cacheMBytesK + cacheMBytesV; weight := mBytesWeight |};
    compute := {| gFloatOps := gFloatOps |};
  |}.

End Estimator.

Arguments kvTypeK {_} _.
Arguments kvTypeV {_} _.
Arguments name {_} _.
Arguments shape {_} _.
Arguments dtype {_} _.
Arguments cacheMBytes {_} _ _ _ _ _ _ _.
Arguments mBytesWeight {_} _ _.
Arguments estimateRuntimeRequirement {_} _ _ _ _ _.

(** ** The typed view of the metadata, and the words of the specification *)

(** All the reads of the source at once: the metadata as the variables
    of [estimateRuntimeRequirement] see it, when every cast holds. *)
Definition read_hparams (metadata : gmap string MetadataValue) : Outcome Hparams :=
  arch ← lookup_or as_string metadata "general.architecture" "unknown";
  n_embd ← lookup_or as_number metadata (arch +:+ ".embedding_length") 0;
  n_head ← lookup_or as_number metadata (arch +:+ ".attention.head_count") 0;
  n_embd_head_k ← lookup_or as_number metadata (arch +:+ ".attention.key_length") (n_embd / n_head);
  n_embd_head_v ← lookup_or as_number metadata (arch +:+ ".attention.value_length") (n_embd / n_head);
  n_head_kv ← lookup_or as_numbers_or_number metadata (arch +:+ ".attention.head_count_kv") (inl []);
  n_layer ← lookup_or as_number metadata (arch +:+ ".block_count") 0;
  n_expert ← lookup_or as_number metadata (arch +:+ ".expert_count") 1;
  n_expert_used ← lookup_or as_number metadata (arch +:+ ".expert_used_count") 1;
  n_ff ← lookup_or as_number metadata (arch +:+ ".feed_forward_length") 1;
  n_vocab ← lookup_or as_number metadata (arch +:+ ".vocab_size") 1;
  Returns {|
    arch := arch; n_embd := n_embd; n_head := n_head;
    n_embd_head_k := n_embd_head_k; n_embd_head_v := n_embd_head_v;
    n_head_kv := n_head_kv; n_layer := n_layer;
    n_expert := n_expert; n_expert_used := n_expert_used;
    n_ff := n_ff; n_vocab := n_vocab;
  |}.

(** The effective [head_count_kv] of layer [i], in the specification's
    words: the [i]-th entry of a sequence if present and truthy, else
    [head_count]; a scalar for every layer. *)
Definition effective_head_count_kv (n_head : float)
    (n_head_kv : list float + float) (i : nat) : float :=
  match n_head_kv with
  | inl entries =>
      match entries !! i with
      | Some x => if truthy x then x else n_head
      | None => n_head
      end
  | inr scalar => scalar
  end.

(** A total accumulated over the layers [0 .. n-1], in layer order, from 0. *)
Definition layer_total (n : nat) (term : nat -> float) : float :=
  fold_left (fun total i => total + term i) (seq 0 n) 0.

(** The specification's formula for the ratio. *)
Definition spec_moe_ratio (expert_used_count expert_count : option float) : float :=
  Math_max 1 (Math_min 1 (default 1 expert_used_count) / Math_min 1 (default 1 expert_count)).

(** A metadata field read as a number, when it is there. *)
Definition number_field (metadata : gmap string MetadataValue) (key : string)
  : option float :=
  match metadata !! key with
  | Some (MNumber x) => Some x
  | _ => None
  end.

(** The element count of a tensor: the product of its dimensions. *)
Definition element_count (shape : list Z) : Z := fold_right Z.mul 1%Z shape.

(** The specification's weight total: over the tensors, in manifest order,
    element count narrowed to a number, times [bits / 8], times [1e-6]. *)
Definition weight_total {Q} (bits : Q -> float) (tensors : list (TensorInfo Q)) : float :=
  fold_left (fun total t =>
               total + Number_of_bigint (element_count (shape t)) * (bits (dtype t) / 8) * 1e-6)
            tensors 0.

(** The same variables with another block count. *)
Definition with_block_count (h : Hparams) (block_count : float) : Hparams :=
  {| arch := arch h; n_embd := n_embd h; n_head := n_head h;
     n_embd_head_k := n_embd_head_k h; n_embd_head_v := n_embd_head_v h;
     n_head_kv := n_head_kv h; n_layer := block_count;
     n_expert := n_expert h; n_expert_used := n_expert_used h;
     n_ff := n_ff h; n_vocab := n_vocab h |}.

(** [term] added [n] more times to a running total. *)
Definition add_repeatedly (n : nat) (term total : float) : float :=
  fold_left (fun t (_ : nat) => t + term) (seq 0 n) total.

(** The values with a clear sign bit ([+0], the positive finite numbers,
    [+Infinity]), and [NaN]. *)
Definition sf_sign_clear (f : spec_float) : bool :=
  match f with
  | S754_zero s | S754_infinity s | S754_finite s _ _ => negb s
  | S754_nan => true
  end.

Definition sign_clear (x : float) : bool := sf_sign_clear (Prim2SF x).

(** Not negative: [NaN], or at least 0. *)
Definition not_negative (x : float) : Prop := is_nan x = true \/ (0 <=? x) = true.

(** The same on the specification side: [NaN], a zero, or a number with a
    clear sign bit. *)
Definition sf_not_negative (f : spec_float) : bool :=
  match f with
  | S754_zero _ | S754_nan => true
  | S754_infinity s | S754_finite s _ _ => negb s
  end.

(** A pass that writes [x] to slot [i] when [g i = Some x]. *)
Definition write_slots (g : nat -> option float) (s k : nat) (a : list float) : list float :=
  fold_left (fun (a : list float) (i : nat) =>
               match g i with Some x => <[i := x]> a | None => a end) (seq s k) a.

(** The value of a finite number counted in units of [2^-1074], the least
    positive binary64 number: every finite binary64 number is a whole
    number of them. The other numbers count as 0. *)
Definition sf_units (f : spec_float) : Z :=
  match f with
  | S754_finite s m e => cond_Zopp s (Z.pos m * 2 ^ (e + 1074))%Z
  | _ => 0%Z
  end.

Definition units (x : float) : Z := sf_units (Prim2SF x).

(** [y] is twice [x] up to a relative error of [k / 2^53]. *)
Definition doubled_within (k : Z) (x y : float) : bool :=
  (2 ^ 53 * Z.abs (units y - 2 * units x) <=? k * Z.abs (2 * units x))%Z.

(** The zeros and the finite numbers. *)
Definition sf_finite (f : spec_float) : bool :=
  match f with S754_zero _ | S754_finite _ _ _ => true | _ => false end.

(** [r] is [x] up to a relative error of [1 / N]. *)
Definition rounded (N r x : Z) : Prop := (N * Z.abs (r - x) <= Z.abs x)%Z.

(** What the shift of [binary_round_aux] keeps of a mantissa [M] once it
    has divided it by [W]: the quotient, whether the remainder reaches
    [W / 2], and whether it is more than that. *)
Definition shr_inv (M W : Z) (mrs : shr_record) : Prop :=
  (0 <= shr_m mrs
   /\ exists T, 0 <= T < W
        /\ 2 * M = 2 * shr_m mrs * W + (if shr_r mrs then W else 0) + T
        /\ (shr_s mrs = false <-> T = 0))%Z.

(** ** Sample inputs *)

Module Sample.

(** Modelled from the spec: the quantization enumeration and its bit-width
    table are not among the sources; three of the encodings the
    specification lists (32-bit float, 16-bit float, a block-quantized
    format with a fractional average width). *)
Inductive QuantizationType := F32 | F16 | Q8_0.

Definition QUANT_SIZES (t : QuantizationType) : float :=
  match t with
  | F32 => 32
  | F16 => 16
  | Q8_0 => 8.5
  end.

(** The concrete scenario of the specification. *)
Definition llama : gmap string MetadataValue :=
  list_to_map [
    ("general.architecture", MString "llama");
    ("llama.embedding_length", MNumber 4096);
    ("llama.attention.head_count", MNumber 32);
    ("llama.attention.head_count_kv", MNumber 32);
    ("llama.block_count", MNumber 32);
    ("llama.attention.key_length", MNumber 128);
    ("llama.attention.value_length", MNumber 128)].

(** The same model with the scores of its tokenizer, which the estimator
    does not read. *)
Definition llama_scored : gmap string MetadataValue :=
  <["tokenizer.ggml.scores" := MNumbers [-1000; -1000.5; 0]]> llama.

Definition f16_config : RuntimeConfig QuantizationType :=
  {| kvTypeK := Some F16; kvTypeV := Some F16 |}.

(** What the estimator reads from [llama]. *)
Definition llama_hparams : Hparams :=
  {| arch := "llama"; n_embd := 4096; n_head := 32;
     n_embd_head_k := 128; n_embd_head_v := 128;
     n_head_kv := inr 32; n_layer := 32;
     n_expert := 1; n_expert_used := 1; n_ff := 1; n_vocab := 1 |}.

(** The same model with twice the blocks. *)
Definition llama64 : gmap string MetadataValue :=
  <["llama.block_count" := MNumber 64]> llama.

(** A value length that all but cancels the key length. *)
Definition cancelling (block_count : float) : gmap string MetadataValue :=
  <["llama.attention.value_length" := MNumber (-128.00000000000003)]>
    (<["llama.block_count" := MNumber block_count]> llama).

(** A mamba model, and the scenario without its architecture key. *)
Definition mamba : gmap string MetadataValue :=
  <["general.architecture" := MString "mamba-2"]> llama.

Definition no_architecture : gmap string MetadataValue :=
  delete "general.architecture" llama.

(** Metadata that only gives the architecture and one block. *)
Definition one_block : gmap string MetadataValue :=
  list_to_map [
    ("general.architecture", MString "llama");
    ("llama.block_count", MNumber 1)].

(** Metadata with a negative embedding length. *)
Definition negative_width : gmap string MetadataValue :=
  list_to_map [
    ("general.architecture", MString "llama");
    ("llama.embedding_length", MNumber (-1))].

(** Three blocks with a per-layer [head_count_kv] that has a falsy entry
    and is one entry short. *)
Definition per_layer : gmap string MetadataValue :=
  list_to_map [
    ("general.architecture", MString "llama");
    ("llama.attention.head_count", MNumber 32);
    ("llama.attention.head_count_kv", MNumbers [8; 0]);
    ("llama.block_count", MNumber 3)].

Definition per_layer_hparams : Hparams :=
  {| arch := "llama"; n_embd := 0; n_head := 32;
     n_embd_head_k := 0; n_embd_head_v := 0;
     n_head_kv := inl [8; 0]; n_layer := 3;
     n_expert := 1; n_expert_used := 1; n_ff := 1; n_vocab := 1 |}.

(** A block count that is not an integer. *)
Definition fractional_blocks : gmap string MetadataValue :=
  <["llama.block_count" := MNumber 2.5]> llama.

(** A manifest of two tensors. *)
Definition tensors : list (TensorInfo QuantizationType) :=
  [ {| name := "token_embd.weight"; shape := [4096; 32000]%Z; dtype := Q8_0 |};
    {| name := "output_norm.weight"; shape := [4096]%Z; dtype := F32 |} ].

End Sample.

(** ** The command line tool ([packages/gguf/src/cli.ts]) *)

(** The string built-ins the tool formats with. A string is its sequence
    of code units; every pad string in the sources is one character. *)
Module JSString.

Fixpoint repeat (c : ascii) (count : nat) : string :=
  match count with
  | O => EmptyString
  | S count => String c (repeat c count)
  end.

(** [s.padEnd(targetLength)] and [s.padStart(targetLength, c)]: nothing
    is added, and nothing removed, when [s] is long enough. *)
Definition padEnd (s : string) (targetLength : nat) : string :=
  s +:+ repeat " " (targetLength - String.length s).

Definition padStart (s : string) (targetLength : nat) (c : ascii) : string :=
  repeat c (targetLength - String.length s) +:+ s.

(** [parts.join(sep)] *)
Definition join (sep : string) (parts : list string) : string :=
  String.concat sep parts.

(** [s.slice(0, n)] *)
Definition slice_to (s : string) (n : nat) : string := String.substring 0 n s.

End JSString.

Module Cli.

Import JSString.

Record PrintColumnHeader := {
  name : string;
  maxWidth : option nat;
  alignRight : bool;
}.

(** [row[i] || ""] *)
Definition cell (row : list string) (i : nat) : string := default EmptyString (row !! i).

(** Lines 149-152: the width of column [i]. A [maxWidth] of 0, like an
    absent one, is falsy and caps nothing. *)
Definition columnWidth (rows : list (list string)) (i : nat) (h : PrintColumnHeader) : nat :=
  let maxContentWidth :=
    fold_left Nat.max (map (fun row => String.length (cell row i)) rows)
              (String.length (name h)) in
  match maxWidth h with
  | Some (S w) => Nat.min maxContentWidth (S w)
  | _ => maxContentWidth
  end.

(** [columnWidths[i]], with no padding asked for past the end. *)
Definition widthAt (columnWidths : list nat) (i : nat) : nat :=
  default 0%nat (columnWidths !! i).

(** Lines 145-174: the lines [printTable] logs, in order. *)
Definition printTable (header : list PrintColumnHeader) (rows : list (list string))
    (leftPad : nat) : list string :=
  let leftPadStr := repeat " " leftPad in
  (* Calculate column widths *)
  let columnWidths := imap (columnWidth rows) header in
  (* Print header *)
  let headerLine :=
    join " | " (imap (fun i h => padEnd (name h) (widthAt columnWidths i)) header) in
  (* Print separator *)
  let separator := join "-|-" (map (fun w => repeat "-" w) columnWidths) in
  (* Print rows *)
  let line (row : list string) :=
    join " | " (imap (fun i h =>
                        if alignRight h
                        then padStart (cell row i) (widthAt columnWidths i) " "
                        else padEnd (cell row i) (widthAt columnWidths i)) header) in
  (leftPadStr +:+ headerLine) :: (leftPadStr +:+ separator)
    :: map (fun row => leftPadStr +:+ line row) rows.

(** The length of the separator line: the left padding, the columns, and
    three code units between each two columns. *)
Definition tableWidth (header : list PrintColumnHeader) (rows : list (list string))
    (leftPad : nat) : nat :=
  leftPad + sum_list (imap (columnWidth rows) header) + 3 * (length header - 1).

(** A column without a cap: [maxWidth] absent, or 0. *)
Definition uncapped (h : PrintColumnHeader) : bool :=
  match maxWidth h with
  | Some (S _) => false
  | _ => true
  end.

(** Line 75: a metadata value cut to [MAX_LEN] code units. *)
Definition MAX_LEN : nat := 50.

Definition truncateValue (strVal : string) : string :=
  if (MAX_LEN <? String.length strVal)%nat
  then slice_to strVal MAX_LEN +:+ "..."
  else strVal.

(** Lines 126-129: the shape shown for a tensor, [[1n, 1n, 1n, 1n]]
    overwritten in index order by the tensor's dimensions; writing at the
    end of an array extends it. *)
Definition displayShape (shape : list Z) : list Z :=
  fold_left (fun (acc : list Z) '(i, dim) =>
               if decide (i < length acc)%nat then <[i := dim]> acc else acc ++ [dim])
            (imap (fun i dim => (i, dim)) shape) [1; 1; 1; 1]%Z.

(** Line 132: the element count shown for it. *)
Definition displayElements (shape : list Z) : Z :=
  fold_left (fun acc n => acc * n)%Z (displayShape shape) 1%Z.

(** The state of the argument loop of [main]. *)
Record Options := {
  ggufPath : string;
  showTensors : bool;
  nCtx : float;
}.

(** [main] either goes on with its options or has left through
    [process.exit], after writing to the error output. *)
Inductive Parsed :=
| Continue (options : Options)
| Exit (stderr : list string) (exitCode : Z).

(** Lines 15-21: [showHelp], after what was already written to the error
    output. *)
Definition showHelp (stderr : list string) (exitCode : Z) : Parsed :=
  Exit (stderr ++
        [ "Usage: gguf-view [--help|-h] [--show-tensor] [--context|-c N] <path/to/gguf>";
          "  --help, -h        Show this help message";
          "  --show-tensor     Show tensor information";
          "  --context, -c N   Number of tokens in context (default: 4096)" ])
       exitCode.

Definition isHelp (a : string) : bool := String.eqb a "--help" || String.eqb a "-h".
Definition isShowTensor (a : string) : bool := String.eqb a "--show-tensor".
Definition isContext (a : string) : bool := String.eqb a "--context" || String.eqb a "-c".

Section Arguments.

(** [Number(s)] for a string is the language's numeric-literal reading. *)
Variable StringToNumber : string -> float.

(** [Number(process.argv[i])]: the entry may be missing, and
    [Number(undefined)] is [NaN]. *)
Definition Number (arg : option string) : float :=
  match arg with
  | Some s => StringToNumber s
  | None => nan
  end.

(** Lines 27-37: the loop over the arguments left from index [i] on; the
    [++i] of the context case takes the next one with it. *)
Fixpoint parseArgs (args : list string) (o : Options) : Parsed :=
  match args with
  | [] => Continue o
  | a :: rest =>
      if isHelp a then showHelp [] 0
      else if isShowTensor a then
        parseArgs rest {| ggufPath := ggufPath o; showTensors := true; nCtx := nCtx o |}
      else if isContext a then
        match rest with
        | [] => Continue {| ggufPath := ggufPath o; showTensors := showTensors o;
                            nCtx := Number None |}
        | value :: rest =>
            parseArgs rest {| ggufPath := ggufPath o; showTensors := showTensors o;
                              nCtx := Number (Some value) |}
        end
      else parseArgs rest {| ggufPath := a; showTensors := showTensors o; nCtx := nCtx o |}
  end.

(** Lines 24-42: [main] up to the check of the path. *)
Definition readArguments (argv : list string) : Parsed :=
  let start := {| ggufPath := ""; showTensors := false; nCtx := 4096 |} in
  match parseArgs (drop 2 argv) start with
  | Continue o =>
      if (String.length (ggufPath o) =? 0)%nat
      then showHelp ["Error: Missing path to gguf file"] 1
      else Continue o
  | exit => exit
  end.

End Arguments.

(** Whether the last argument is a context flag still waiting for its
    value. *)
Fixpoint dangling (args : list string) : bool :=
  match args with
  | [] => false
  | a :: rest =>
      if isHelp a then false
      else if isShowTensor a then dangling rest
      else if isContext a then
        match rest with
        | [] => true
        | _ :: rest => dangling rest
        end
      else dangling rest
  end.

End Cli.

(** ** The memory report of the tool

    Lines 80-112 of [main] in [cli.ts]: the call of the estimator with
    both cache types [F16], the arithmetic of the report, and the [catch]
    that turns a throw of the estimator into one line on [stderr].

    The [catch] takes whatever is thrown, so it also takes the [TypeError]
    of line 40 of the estimator: when [general.architecture] holds a number
    or an array, the reads of lines 33-38 go through (a template string
    and a division take any of these values), and [arch.startsWith] is then
    not a function. Where a cast of a numeric field does not hold, the
    estimator goes on with the conversions of the language, which its model
    does not follow: the report is [Mistyped] there, as the estimate is. *)

Module Report.

Definition message (e : Exception) : string :=
  match e with Error m | RangeError m => m end.

Record MemoryUsage := {
  kvUsageMB : float;
  modelWeightMB : float;
  totalMemoryUsage : float;
  batchMB : float;
  overheadMB : float;
}.

(** Lines 91-95. *)
Definition memoryUsage (estimation : RuntimeRequirementEstimation) (nCtx : float)
  : MemoryUsage :=
  let kvUsageMB := perToken (memory estimation) * nCtx in
  let modelWeightMB := weight (memory estimation) in
  let totalMemoryUsage := kvUsageMB + modelWeightMB in
  let batchMB := perToken (memory estimation) * 256 + totalMemoryUsage in
  let overheadMB := batchMB + modelWeightMB * 0.05 in
  {| kvUsageMB := kvUsageMB; modelWeightMB := modelWeightMB;
     totalMemoryUsage := totalMemoryUsage; batchMB := batchMB;
     overheadMB := overheadMB |}.

Record Console := { stdout : list string; stderr : list string }.

Section Printing.

Variable GGMLQuantizationType : Type.
Variable F16 : GGMLQuantizationType.
Variable GGML_QUANT_SIZES : GGMLQuantizationType -> float.

(** [Number.prototype.toFixed], left open: no claim depends on the digits
    it prints. *)
Variable toFixed : float -> nat -> string.

(** Lines 98-104: the rows of the table. *)
Definition memoryRows (u : MemoryUsage) : list (list string) :=
  [ ["KV cache"; toFixed (kvUsageMB u / 1e6) 2 +:+ " GB"];
    ["Weight"; toFixed (modelWeightMB u / 1e6) 2 +:+ " GB"];
    ["Overhead"; toFixed (overheadMB u / 1e6) 2 +:+ " GB"];
    [""; "---"];
    ["TOTAL"; toFixed (totalMemoryUsage u / 1e6) 2 +:+ " GB"] ].

(** The message of the [TypeError] for a call of [arch.startsWith] when
    [arch] has no such method. *)
Definition startsWith_message : string := "arch.startsWith is not a function".

(** Lines 82-112: the [try] block and its [catch]. *)
Definition estimationReport (metadata : gmap string MetadataValue)
    (tensorInfos : list (TensorInfo GGMLQuantizationType)) (nCtx : float)
  : Outcome Console :=
  match metadata !! "general.architecture" with
  | Some (MNumber _) | Some (MNumbers _) =>
      Returns {| stdout := []; stderr := ["Error: " +:+ startsWith_message] |}
  | _ =>
      match estimateRuntimeRequirement F16 GGML_QUANT_SIZES
              {| kvTypeK := Some F16; kvTypeV := Some F16 |}
              metadata (Some tensorInfos) with
      | Returns estimation =>
          let teraOps := gFloatOps (compute estimation) / 1000 in
          Returns {|
            stdout :=
              Cli.printTable
                [ {| Cli.name := "Item"; Cli.maxWidth := None;
                     Cli.alignRight := false |};
                  {| Cli.name := "Memory usage"; Cli.maxWidth := None;
                     Cli.alignRight := true |} ]
                (memoryRows (memoryUsage estimation nCtx)) 2
              ++ [ ""; "* Compute usage estimation: " +:+ toFixed teraOps 2
                       +:+ " Tera floating point operations per token" ];
            stderr := [] |}
      | Throws e => Returns {| stdout := []; stderr := ["Error: " +:+ message e] |}
      | Mistyped key => Mistyped key
      end
  end.

End Printing.

Arguments estimationReport {GGMLQuantizationType} F16 GGML_QUANT_SIZES toFixed
  metadata tensorInfos nCtx.

End Report.

(** ** The SHA-256 wrapper ([packages/hub/src/vendor/hash-wasm/sha256-wrapper.ts]) *)

Module Sha256.

Abbreviation byte := Byte.byte.

(** What the wrapper does to the WebAssembly module: the calls of its
    exports and the writes to its buffer, in order. The module itself is
    not part of the sources. *)
Inductive Effect :=
| Hash_Init (bits : N)
| HeapSet (source : list byte)
| Hash_Update (length : N)
| Hash_Final.

Definition BUFFER_MAX_SIZE : positive := 8 * 1024 * 1024.

Definition byteLength (data : list byte) : N := N.of_nat (length data).

(** [data.subarray(begin, end)]: both bounds are clamped to the length,
    and the view is empty when [end] does not exceed [begin]. *)
Definition subarray (data : list byte) (begin end_ : N) : list byte :=
  let relativeBegin := N.min begin (byteLength data) in
  let relativeEnd := N.min end_ (byteLength data) in
  take (N.to_nat (relativeEnd - relativeBegin)) (drop (N.to_nat relativeBegin) data).

(** Lines 16-18. *)
Definition init : list Effect := [Hash_Init 256].

(** Lines 20-27: the loop of [update] from [byteUsed] on, for a buffer of
    [heapLength] bytes. [heap.set] throws when its source is longer than
    the buffer. *)
Equations? updateLoop (maxSize : positive) (heapLength : N) (data : list byte)
    (byteUsed : N) (effects : list Effect) : Outcome (list Effect)
    by wf (N.to_nat (byteLength data - byteUsed)) lt :=
  updateLoop maxSize heapLength data byteUsed effects
    with decide (byteUsed < byteLength data)%N := {
    | right _ => Returns effects
    | left _ =>
        let bytesLeft := (byteLength data - byteUsed)%N in
        let length := if (bytesLeft <? N.pos maxSize)%N then bytesLeft else N.pos maxSize in
        let source := subarray data byteUsed length in
        if (byteLength source <=? heapLength)%N
        then updateLoop maxSize heapLength data (byteUsed + length)
               (effects ++ [HeapSet source; Hash_Update length])
        else Throws (RangeError "offset is out of bounds") }.
Proof.
  subst source length bytesLeft.
  destruct (N.ltb_spec (byteLength data - byteUsed) (N.pos maxSize)); lia.
Qed.

Definition updateWith (maxSize : positive) (heapLength : N) (data : list byte)
  : Outcome (list Effect) :=
  updateLoop maxSize heapLength data 0 [].

(** Lines 19-28. *)
Definition update (heapLength : N) (data : list byte) : Outcome (list Effect) :=
  updateWith BUFFER_MAX_SIZE heapLength data.

(** [b.toString(16)] for a byte. *)
Definition hexDigit (d : N) : ascii :=
  match d with
  | 0 => "0" | 1 => "1" | 2 => "2" | 3 => "3" | 4 => "4" | 5 => "5" | 6 => "6"
  | 7 => "7" | 8 => "8" | 9 => "9" | 10 => "a" | 11 => "b" | 12 => "c"
  | 13 => "d" | 14 => "e" | _ => "f"
  end%N%char.

Definition toString16 (b : byte) : string :=
  let n := Byte.to_N b in
  if (n <? 16)%N then String (hexDigit n) EmptyString
  else String (hexDigit (n / 16)) (String (hexDigit (n mod 16)) EmptyString).

(** Lines 34-35, for the bytes read from the buffer. *)
Definition hex (result : list byte) : string :=
  JSString.join "" (map (fun b => JSString.padStart (toString16 b) 2 "0") result).

(** Lines 29-36: [digest], given what the buffer holds once [_Hash_Final]
    has run. *)
Definition digest (method : string) (heapAfterFinal : list byte)
  : Outcome (list Effect * string) :=
  if negb (String.eqb method "hex")
  then Throws (Error "Only digest hex is supported")
  else Returns ([Hash_Final], hex (take 32 heapAfterFinal)).

(** The lengths passed to [_Hash_Update], and the bytes written to the
    buffer, in order. *)
Definition updateLengths (effects : list Effect) : list N :=
  omap (fun e => match e with Hash_Update n => Some n | _ => None end) effects.

Definition heapWrites (effects : list Effect) : list byte :=
  concat (omap (fun e => match e with HeapSet source => Some source | _ => None end)
               effects).

(** The calls of a chunk that leaves the buffer as it was. *)
Definition staleChunk (length : N) : list Effect := [HeapSet []; Hash_Update length].

(** The value of a hexadecimal digit, and the bytes a hexadecimal string
    spells. *)
Definition hexValue (c : ascii) : option N :=
  let n := N_of_ascii c in
  if (48 <=? n)%N && (n <=? 57)%N then Some (n - 48)%N
  else if (97 <=? n)%N && (n <=? 102)%N then Some (n - 87)%N
  else None.

Fixpoint unhex (s : string) : option (list byte) :=
  match s with
  | EmptyString => Some []
  | String hi (String lo rest) =>
      h ← hexValue hi; l ← hexValue lo; b ← Byte.of_N (16 * h + l);
      bytes ← unhex rest; Some (b :: bytes)
  | String _ EmptyString => None
  end.

End Sha256.

(** ** Sample inputs of the tool and of the wrapper *)

Module ToolSample.

(** The header of the metadata table, without its middle column, and two
    rows, the second of which is one cell short. *)
Definition header : list Cli.PrintColumnHeader :=
  [ {| Cli.name := "Idx"; Cli.maxWidth := None; Cli.alignRight := true |};
    {| Cli.name := "Value"; Cli.maxWidth := None; Cli.alignRight := false |} ].

Definition rows : list (list string) :=
  [ ["1"; "general.architecture = llama"]; ["12"] ].

(** The same header with the second column capped at four code units. *)
Definition cappedHeader : list Cli.PrintColumnHeader :=
  [ {| Cli.name := "Idx"; Cli.maxWidth := None; Cli.alignRight := true |};
    {| Cli.name := "Value"; Cli.maxWidth := Some 4%nat; Cli.alignRight := false |} ].

(** A reading of decimal strings that knows one number. *)
Definition StringToNumber (s : string) : float :=
  if String.eqb s "2048" then 2048 else nan.

(** Metadata whose architecture is a number. *)
Definition numbered : gmap string MetadataValue :=
  <["general.architecture" := MNumber 5]> Sample.llama.

(** A rendering of numbers that knows [NaN] only. *)
Definition toFixed (x : float) (digits : nat) : string :=
  if is_nan x then "NaN" else "0.00".

Definition bytes (values : list N) : list Byte.byte := omap Byte.of_N values.

Definition tenBytes : list Byte.byte := bytes [1; 2; 3; 4; 5; 6; 7; 8; 9; 10]%N.

End ToolSample.

(** ** The built-ins at a few arguments *)

Example truthy_numbers :
  truthy 8 = true /\ truthy 0 = false /\ truthy (-0) = false /\ truthy nan = false.
Proof. by vm_compute. Qed.

Example Math_min_max_values :
  Math_min 1 8 = 1 /\ Math_min 1 0.5 = 0.5 /\ Math_min 0 (-0) = -0
  /\ Math_min 1 nan = nan /\ Math_max 1 0.5 = 1 /\ Math_max 1 8 = 8
  /\ Math_max (-0) 0 = 0 /\ Math_max nan 1 = nan.
Proof. by vm_compute. Qed.

Example Number_of_bigint_rounds :
  Number_of_bigint 4096 = 4096
  /\ Number_of_bigint (2 ^ 53 + 1) = 9007199254740992
  /\ Number_of_bigint (2 ^ 53 + 3) = 9007199254740996
  /\ Number_of_bigint (2 ^ 1024) = infinity.
Proof. by vm_compute. Qed.

Example Array_length_values :
  Array_length 32 = Returns 32%nat
  /\ Array_length (-0) = Returns 0%nat
  /\ Array_length 2.5 = Throws (RangeError "Invalid array length")
  /\ Array_length (-1) = Throws (RangeError "Invalid array length")
  /\ Array_length 4294967296 = Throws (RangeError "Invalid array length")
  /\ Array_length nan = Throws (RangeError "Invalid array length").
Proof. by vm_compute. Qed.

(** ** Reading the metadata *)

Lemma lookup_or_absent {T} (cast : string -> MetadataValue -> Outcome T)
    (md : gmap string MetadataValue) key d :
  md !! key = None -> lookup_or cast md key d = Returns d.
Proof. unfold lookup_or. by intros ->. Qed.

Lemma bind_Returns_inv {A B} (m : Outcome A) (k : A -> Outcome B) b :
  (m ≫= k) = Returns b -> exists a, m = Returns a /\ k a = Returns b.
Proof. destruct m; simpl; intros H; try discriminate. eauto. Qed.

(** Peels the binds of a successful monadic read, one at a time. *)
Ltac peel H :=
  repeat match type of H with
    | (?m ≫= _) = Returns _ =>
        let a := fresh "a" in
        let Ha := fresh "Hread" in
        apply bind_Returns_inv in H as (a & Ha & H)
    end.

Lemma lookup_or_not_Throws {T} (cast : string -> MetadataValue -> Outcome T)
    (md : gmap string MetadataValue) key d e :
  (forall k v e', cast k v <> Throws e') ->
  lookup_or cast md key d <> Throws e.
Proof.
  intros Hcast. unfold lookup_or. destruct (md !! key); [apply Hcast | discriminate].
Qed.

Lemma as_number_not_Throws k v e : as_number k v <> Throws e.
Proof. by destruct v. Qed.

Lemma as_numbers_or_number_not_Throws k v e : as_numbers_or_number k v <> Throws e.
Proof. by destruct v. Qed.

(** One more read in a goal about what the call throws: it returns, or a
    cast fails, which is not a throw. *)
Ltac read_or_fail :=
  match goal with
  | |- context [lookup_or ?c ?md ?k ?d] =>
      let Hr := fresh "Hr" in
      destruct (lookup_or c md k d) as [?|?|?] eqn:Hr; simpl;
      [ | exfalso; revert Hr; apply lookup_or_not_Throws;
          first [apply as_number_not_Throws | apply as_numbers_or_number_not_Throws]
        | discriminate ]
  end.

(** ** The loops over the layers *)

Lemma fold_left_ext_in {A B} (f g : A -> B -> A) (l : list B) (a : A) :
  (forall a x, x ∈ l -> f a x = g a x) ->
  fold_left f l a = fold_left g l a.
Proof.
  revert a. induction l as [|x l IH]; intros a Hfg; simpl; [done|].
  rewrite Hfg by left. apply IH. intros a' y Hy. apply Hfg. by right.
Qed.

(** Two totals accumulated in one loop are the two totals. *)
Lemma fold_left_pair {B} (f g : float -> B -> float) (l : list B) (a b : float) :
  fold_left (fun '(x, y) i => (f x i, g y i)) l (a, b)
  = (fold_left f l a, fold_left g l b).
Proof. revert a b. induction l as [|i l IH]; intros a b; simpl; [done | apply IH]. Qed.

Lemma write_slots_length g s k a : length (write_slots g s k a) = length a.
Proof.
  unfold write_slots. revert s a. induction k as [|k IH]; intros s a; simpl; [done|].
  rewrite IH. destruct (g s); [apply length_insert | done].
Qed.

Lemma write_slots_lookup g s k a i :
  write_slots g s k a !! i =
    if decide (s <= i < s + k /\ i < length a)%nat
    then match g i with Some x => Some x | None => a !! i end
    else a !! i.
Proof.
  unfold write_slots. revert s a. induction k as [|k IH]; intros s a; simpl.
  - case_decide; [lia | done].
  - rewrite IH.
    assert (length (match g s with Some x => <[s:=x]> a | None => a end) = length a) as ->.
    { destruct (g s); [apply length_insert | done]. }
    destruct (decide (i = s)) as [-> | Hne].
    + rewrite decide_False by lia.
      destruct (g s) as [x|]; [|by case_decide].
      case_decide.
      * apply list_lookup_insert_eq. lia.
      * rewrite list_insert_ge by lia. done.
    + assert ((match g s with Some x => <[s:=x]> a | None => a end) !! i = a !! i) as ->.
      { destruct (g s); [by apply list_lookup_insert_ne | done]. }
      repeat case_decide; try done; lia.
Qed.

Lemma n_head_kv_arr_write n nh kv :
  n_head_kv_arr n nh kv =
    write_slots (fun i => match kv with
                          | inl arr =>
                              match arr !! i with
                              | Some x => if truthy x then Some x else None
                              | None => None
                              end
                          | inr x => Some x
                          end) 0 n (replicate n nh).
Proof.
  unfold n_head_kv_arr, write_slots. destruct kv as [arr|x]; [|done].
  apply fold_left_ext_in. intros a i _.
  destruct (arr !! i) as [x|]; [|done]. by destruct (truthy x).
Qed.

Lemma n_head_kv_arr_length n nh kv : length (n_head_kv_arr n nh kv) = n.
Proof. by rewrite n_head_kv_arr_write, write_slots_length, length_replicate. Qed.

Lemma n_head_kv_arr_lookup n nh kv i :
  (i < n)%nat ->
  n_head_kv_arr n nh kv !! i = Some (effective_head_count_kv nh kv i).
Proof.
  intros Hi. rewrite n_head_kv_arr_write, write_slots_lookup, length_replicate.
  rewrite decide_True by lia.
  rewrite (lookup_replicate_2 n nh i Hi).
  unfold effective_head_count_kv. destruct kv as [arr|x]; [|done].
  destruct (arr !! i) as [x|]; [|done]. by destruct (truthy x).
Qed.

Lemma cacheMBytes_totals {Q} (sizes : Q -> float) n k v arr tk tv :
  cacheMBytes sizes n k v arr tk tv =
    (layer_total n (fun i => k * index_number arr i * (sizes tk / 8) * TO_MEGA),
     layer_total n (fun i => v * index_number arr i * (sizes tv / 8) * TO_MEGA)).
Proof. unfold cacheMBytes, layer_total. apply fold_left_pair. Qed.

Lemma layer_total_ext n f g :
  (forall i, (i < n)%nat -> f i = g i) -> layer_total n f = layer_total n g.
Proof.
  intros Hfg. unfold layer_total. apply fold_left_ext_in.
  intros a i Hi. apply elem_of_seq in Hi. rewrite Hfg; [done | lia].
Qed.

Lemma read_hparams_inv md h :
  read_hparams md = Returns h ->
  lookup_or as_string md "general.architecture" "unknown" = Returns (arch h)
  /\ lookup_or as_number md (arch h +:+ ".embedding_length") 0 = Returns (n_embd h)
  /\ lookup_or as_number md (arch h +:+ ".attention.head_count") 0 = Returns (n_head h)
  /\ lookup_or as_number md (arch h +:+ ".attention.key_length") (n_embd h / n_head h)
      = Returns (n_embd_head_k h)
  /\ lookup_or as_number md (arch h +:+ ".attention.value_length") (n_embd h / n_head h)
      = Returns (n_embd_head_v h)
  /\ lookup_or as_numbers_or_number md (arch h +:+ ".attention.head_count_kv") (inl [])
      = Returns (n_head_kv h)
  /\ lookup_or as_number md (arch h +:+ ".block_count") 0 = Returns (n_layer h)
  /\ lookup_or as_number md (arch h +:+ ".expert_count") 1 = Returns (n_expert h)
  /\ lookup_or as_number md (arch h +:+ ".expert_used_count") 1 = Returns (n_expert_used h)
  /\ lookup_or as_number md (arch h +:+ ".feed_forward_length") 1 = Returns (n_ff h)
  /\ lookup_or as_number md (arch h +:+ ".vocab_size") 1 = Returns (n_vocab h).
Proof.
  intros H. unfold read_hparams in H. peel H. injection H as <-. simpl.
  repeat split; assumption.
Qed.

Lemma fold_left_mul_element_count (shape : list Z) :
  fold_left Z.mul shape 1%Z = element_count shape.
Proof.
  unfold element_count.
  assert (forall a, fold_left Z.mul shape a = (a * fold_right Z.mul 1 shape)%Z) as H.
  { induction shape as [|d shape IH]; intros a; simpl; [lia|]. rewrite IH. lia. }
  rewrite H. lia.
Qed.

(** ** Comparisons of binary64 numbers *)

Lemma SFcompare_antisym x y : SFcompare y x = CompOpp <$> SFcompare x y.
Proof.
  destruct x as [sx|sx| |sx mx ex], y as [sy|sy| |sy my ey]; simpl; try done;
    try (by destruct sx); try (by destruct sy); try (by destruct sx, sy).
  pose proof (Pos.compare_cont_antisym mx my Eq) as Hm. simpl in Hm.
  destruct sx, sy; simpl; try done; f_equal;
    rewrite (Z.compare_antisym ex ey);
    destruct (ex ?= ey)%Z; simpl; try done;
    rewrite <- Hm; by destruct (Pos.compare_cont Eq mx my).
Qed.

Lemma SFcompare_refl x : x <> S754_nan -> SFcompare x x = Some Eq.
Proof.
  destruct x as [s|s| |s m e]; simpl; try done.
  - by destruct s.
  - intros _. destruct s; rewrite Z.compare_refl; f_equal.
    + by rewrite Pos.compare_cont_refl.
    + apply Pos.compare_cont_refl.
Qed.

Lemma leb_not_nan x y : (x <=? y) = true -> is_nan x = false /\ is_nan y = false.
Proof.
  rewrite leb_spec. unfold is_nan. rewrite !FloatAxioms.eqb_spec. unfold SFleb, SFeqb.
  intros H.
  assert (Prim2SF x <> S754_nan /\ Prim2SF y <> S754_nan) as [Hx Hy].
  { destruct (Prim2SF x), (Prim2SF y); simpl in H; try done. }
  by rewrite !SFcompare_refl.
Qed.

Lemma leb_not_gt x y : (x <=? y) = true -> (y <? x) = false.
Proof.
  rewrite leb_spec, ltb_spec. unfold SFleb, SFltb.
  rewrite (SFcompare_antisym (Prim2SF x)).
  by destruct (SFcompare (Prim2SF x) (Prim2SF y)) as [[]|].
Qed.

(** [Math.min(1, x)] is 1 for every [x >= 1], infinite or not. *)
Lemma Math_min_one x : (1 <=? x) = true -> Math_min 1 x = 1.
Proof.
  intros H. unfold Math_min.
  destruct (leb_not_nan _ _ H) as [-> ->]. simpl.
  change (min_step infinity 1) with 1. unfold min_step.
  change (is_pos_zero 1) with false. simpl.
  by rewrite (leb_not_gt _ _ H).
Qed.

Lemma lookup_or_insert_ne {T} (cast : string -> MetadataValue -> Outcome T)
    (md : gmap string MetadataValue) k v key d :
  k <> key -> lookup_or cast (<[k := v]> md) key d = lookup_or cast md key d.
Proof. intros Hne. unfold lookup_or. by rewrite lookup_insert_ne. Qed.

(** ** Signs of binary64 results *)

Lemma binary_round_aux_sign_clear m e l :
  sf_sign_clear (binary_round_aux prec emax false m e l) = true.
Proof.
  unfold binary_round_aux.
  destruct (shr_fexp _ _ m e l) as [mrs' e'].
  destruct (shr_fexp _ _ _ e' loc_Exact) as [mrs'' e''].
  destruct (shr_m mrs''); [done | | done].
  by destruct (_ <=? _)%Z.
Qed.

Lemma sign_clear_not_negative x : sign_clear x = true -> not_negative x.
Proof.
  unfold sign_clear, not_negative, is_nan. rewrite leb_spec, FloatAxioms.eqb_spec.
  change (Prim2SF 0) with (S754_zero false).
  destruct (Prim2SF x) as [[]|[]| |[] mx ex]; simpl; try done; auto.
Qed.

Lemma not_negative_spec x :
  not_negative x <-> sf_not_negative (Prim2SF x) = true.
Proof.
  unfold not_negative, is_nan. rewrite leb_spec, FloatAxioms.eqb_spec.
  change (Prim2SF 0) with (S754_zero false).
  destruct (Prim2SF x) as [[]|[]| |[] mx ex]; simpl;
    (split; [intros [H|H]; try done | intros H; try done; auto]).
  all: unfold SFeqb in H; simpl in H;
    by rewrite Z.compare_refl, Pos.compare_cont_refl in H.
Qed.

Lemma sf_sign_clear_not_negative f : sf_sign_clear f = true -> sf_not_negative f = true.
Proof. by destruct f as [[]|[]| |[] m e]. Qed.

(** Products, sums and quotients by a number with a clear sign bit of
    numbers that are not negative are not negative. *)
Lemma not_negative_mul x y :
  not_negative x -> not_negative y -> not_negative (x * y).
Proof.
  rewrite !not_negative_spec, mul_spec.
  destruct (Prim2SF x) as [[]|[]| |[] mx ex], (Prim2SF y) as [[]|[]| |[] my ey];
    simpl; try done.
  intros _ _. apply sf_sign_clear_not_negative, binary_round_aux_sign_clear.
Qed.

Lemma not_negative_add x y :
  not_negative x -> not_negative y -> not_negative (x + y).
Proof.
  rewrite !not_negative_spec, add_spec.
  destruct (Prim2SF x) as [[]|[]| |[] mx ex], (Prim2SF y) as [[]|[]| |[] my ey];
    simpl; try done.
  intros _ _. unfold SF64add, SFadd, binary_normalize, binary_round. simpl.
  destruct (shl_align _ _ _) as [mz ez].
  apply sf_sign_clear_not_negative, binary_round_aux_sign_clear.
Qed.

Lemma not_negative_div x y :
  not_negative x -> sign_clear y = true -> not_negative (x / y).
Proof.
  unfold sign_clear. rewrite !not_negative_spec, div_spec.
  destruct (Prim2SF x) as [[]|[]| |[] mx ex], (Prim2SF y) as [[]|[]| |[] my ey];
    simpl; try done.
  intros _ _. unfold SF64div, SFdiv.
  destruct (SFdiv_core_binary _ _ _ _ _ _) as [[mz ez] lz].
  apply sf_sign_clear_not_negative, binary_round_aux_sign_clear.
Qed.

Lemma binary_normalize_sign_clear b e :
  (0 <= b)%Z -> sf_sign_clear (binary_normalize prec emax b e false) = true.
Proof.
  intros Hb. destruct b as [|m|m]; simpl; [done| |lia].
  unfold binary_round. destruct (shl_align _ _ _) as [mz ez].
  apply binary_round_aux_sign_clear.
Qed.

Lemma SF2Prim_sign_clear f :
  sf_sign_clear f = true -> sign_clear (SF2Prim f) = true.
Proof.
  destruct f as [[]|[]| |[] m e]; simpl; try done.
  intros _. unfold sign_clear. rewrite Z_ldexp_spec, of_uint63_spec.
  pose proof (binary_normalize_sign_clear (Uint63.to_Z (Uint63.of_Z (Z.pos m))) 0) as H.
  destruct (binary_normalize _ _ _ _ _) as [s|s| |s m' e'] eqn:Hn; simpl.
  - apply H, Uint63.to_Z_bounded.
  - apply H, Uint63.to_Z_bounded.
  - done.
  - assert (s = false) as ->.
    { apply negb_true_iff, H, Uint63.to_Z_bounded. }
    unfold binary_round. destruct (shl_align _ _ _) as [mz ez].
    apply binary_round_aux_sign_clear.
Qed.

Lemma Number_of_bigint_sign_clear b :
  (0 <= b)%Z -> sign_clear (Number_of_bigint b) = true.
Proof. intros Hb. by apply SF2Prim_sign_clear, binary_normalize_sign_clear. Qed.

Lemma element_count_nonneg shape :
  Forall (fun d => 0 <= d)%Z shape -> (0 <= element_count shape)%Z.
Proof. unfold element_count. induction 1; simpl; lia. Qed.

(** Sign bookkeeping for an arithmetic expression over numbers that are
    not negative. *)
Ltac not_negative :=
  repeat first
    [ assumption
    | match goal with
      | H : forall _, not_negative _ |- not_negative _ => apply H
      end
    | apply not_negative_add
    | apply not_negative_mul
    | apply not_negative_div
    | by apply sign_clear_not_negative
    | reflexivity ].

Lemma not_negative_total {B} (f : B -> float) (l : list B) (a : float) :
  not_negative a ->
  (forall i, i ∈ l -> not_negative (f i)) ->
  not_negative (fold_left (fun t i => t + f i) l a).
Proof.
  revert a. induction l as [|i l IH]; intros a Ha Hf; simpl; [done|].
  apply IH.
  - apply not_negative_add; [done | apply Hf; by left].
  - intros j Hj. apply Hf. by right.
Qed.

(** [Math.max(1, x)] is [NaN] or at least 1, whatever [x] is. *)
Lemma Math_max_one_sign_clear x : sign_clear (Math_max 1 x) = true.
Proof.
  unfold Math_max. destruct (is_nan 1 || is_nan x); [done|].
  change (max_step neg_infinity 1) with 1. unfold max_step.
  change (is_neg_zero 1) with false. simpl.
  destruct (1 <? x) eqn:Hlt; [|done].
  rewrite ltb_spec in Hlt. unfold sign_clear.
  change (Prim2SF 1) with (S754_finite false 4503599627370496 (-52)) in Hlt.
  by destruct (Prim2SF x) as [[]|[]| |[] m e].
Qed.

Lemma moe_ratio_sign_clear n_expert_used n_expert :
  sign_clear (moe_ratio n_expert_used n_expert) = true.
Proof. apply Math_max_one_sign_clear. Qed.

Lemma Array_length_bound x k :
  Array_length x = Returns k -> (Z.of_nat k < 2 ^ 32)%Z.
Proof.
  unfold Array_length. destruct (integer_value x) as [v|]; [|done].
  destruct (_ && _) eqn:Hv; [|done]. intros [= <-].
  apply andb_prop in Hv as [Hlo Hhi].
  apply Z.leb_le in Hlo. apply Z.ltb_lt in Hhi. rewrite Z2Nat.id; lia.
Qed.

(** ** Totals of a constant term *)

Lemma fold_left_constant_length {B} (c : float) (l l' : list B) (a : float) :
  length l = length l' ->
  fold_left (fun t _ => t + c) l a = fold_left (fun t _ => t + c) l' a.
Proof.
  revert l' a. induction l as [|x l IH]; intros [|x' l'] a Hlen; simpl in *;
    try done. apply IH. lia.
Qed.

Lemma layer_total_constant n c : layer_total n (fun _ => c) = add_repeatedly n c 0.
Proof. done. Qed.

Lemma add_repeatedly_twice n c a :
  add_repeatedly (2 * n) c a = add_repeatedly n c (add_repeatedly n c a).
Proof.
  unfold add_repeatedly. replace (2 * n)%nat with (n + n)%nat by lia.
  rewrite seq_app, fold_left_app. apply fold_left_constant_length.
  by rewrite !length_seq.
Qed.

(** ** Rounding of binary64 additions

    The additions of the loops round to nearest. What follows measures
    that rounding on [SpecFloat]'s definitions: a finite sum of two finite
    numbers that are not of opposite signs is the exact sum up to a
    relative error of [2^-53]. Values are counted in [units]. *)

Section Rounding.

Local Open Scope Z_scope.

(** [digits2_pos p] is the number of binary digits of [p]. *)
Lemma digits2_pos_bounds p :
  2 ^ (Z.pos (digits2_pos p) - 1) <= Z.pos p < 2 ^ Z.pos (digits2_pos p).
Proof.
  induction p as [p IH|p IH|]; simpl digits2_pos.
  - rewrite Pos2Z.inj_succ.
    replace (Z.succ (Z.pos (digits2_pos p)) - 1) with (Z.succ (Z.pos (digits2_pos p) - 1)) by lia.
    rewrite !Z.pow_succ_r by lia. lia.
  - rewrite Pos2Z.inj_succ.
    replace (Z.succ (Z.pos (digits2_pos p)) - 1) with (Z.succ (Z.pos (digits2_pos p) - 1)) by lia.
    rewrite !Z.pow_succ_r by lia. lia.
  - simpl. lia.
Qed.

Lemma digits2_pos_unique p k :
  2 ^ (k - 1) <= Z.pos p < 2 ^ k -> Z.pos (digits2_pos p) = k.
Proof.
  intros [Hlo Hhi]. pose proof (digits2_pos_bounds p) as [Dlo Dhi].
  assert (0 < k) as Hk.
  { destruct (Z.le_gt_cases k 0) as [Hle|]; [|done].
    assert (2 ^ k <= 2 ^ 0) by (apply Z.pow_le_mono_r; lia).
    simpl in *. lia. }
  destruct (Z.lt_trichotomy (Z.pos (digits2_pos p)) k) as [Hlt|[->|Hgt]]; [|done|].
  - assert (2 ^ Z.pos (digits2_pos p) <= 2 ^ (k - 1)) by (apply Z.pow_le_mono_r; lia).
    lia.
  - assert (2 ^ k <= 2 ^ (Z.pos (digits2_pos p) - 1)) by (apply Z.pow_le_mono_r; lia).
    lia.
Qed.

(** One more shift halves the quotient and keeps track of the remainder. *)
Lemma shr_1_inv M W mrs : 0 < W -> shr_inv M W mrs -> shr_inv M (2 * W) (shr_1 mrs).
Proof.
  intros HW (Hm & T & HT & HM & Hs). destruct mrs as [m r s]. simpl in *.
  assert ((r || s = false) <-> (if r then W else 0) + T = 0) as Hs'.
  { destruct Hs as [Hs1 Hs2].
    destruct r, s; simpl; split; intros H;
      first [done | lia | by apply Hs2; lia | specialize (Hs1 eq_refl); lia]. }
  destruct m as [|[p|p|]|p]; unfold shr_inv; simpl; try lia.
  all: split; [lia|]; exists ((if r then W else 0) + T).
  all: split; [destruct r; lia|]; split; [destruct r; lia|done].
Qed.

Lemma iter_pos_shr_1_inv M p : forall W mrs,
  0 < W -> shr_inv M W mrs -> shr_inv M (W * 2 ^ Z.pos p) (SpecFloat.iter_pos shr_1 p mrs).
Proof.
  induction p as [p IH|p IH|]; intros W mrs HW Hinv; simpl SpecFloat.iter_pos.
  - replace (W * 2 ^ Z.pos p~1) with (2 * W * 2 ^ Z.pos p * 2 ^ Z.pos p).
    + assert (0 < 2 ^ Z.pos p) by (apply Z.pow_pos_nonneg; lia).
      apply IH; [nia|]. apply IH; [lia|]. by apply shr_1_inv.
    + assert (Z.pos p~1 = Z.pos p + Z.pos p + 1) as -> by lia.
      rewrite !Z.pow_add_r by lia. change (2 ^ 1) with 2. ring.
  - replace (W * 2 ^ Z.pos p~0) with (W * 2 ^ Z.pos p * 2 ^ Z.pos p).
    + assert (0 < 2 ^ Z.pos p) by (apply Z.pow_pos_nonneg; lia).
      apply IH; [nia|]. by apply IH.
    + assert (Z.pos p~0 = Z.pos p + Z.pos p) as -> by lia.
      rewrite !Z.pow_add_r by lia. ring.
  - change (2 ^ 1) with 2. rewrite Z.mul_comm. by apply shr_1_inv.
Qed.

(** Rounding to nearest keeps the error within half of the weight. *)
Lemma round_nearest_even_inv M W mrs :
  0 < W -> shr_inv M W mrs ->
  let m := round_nearest_even (shr_m mrs) (loc_of_shr_record mrs) in
  shr_m mrs <= m <= shr_m mrs + 1 /\ 2 * Z.abs (m * W - M) <= W.
Proof.
  intros HW (Hm & T & HT & HM & [Hs1 Hs2]). destruct mrs as [m r s]. simpl in *.
  destruct r, s; simpl.
  - split; [lia|]. lia.
  - specialize (Hs1 eq_refl). destruct (Z.even m); split; lia.
  - split; lia.
  - split; lia.
Qed.

(** The exponent of the last digit kept, for binary64. *)
Lemma fexp_64 e : fexp 53 1024 e = Z.max (e - 53) (-1074).
Proof. reflexivity. Qed.

(** A mantissa that fits is not shifted. *)
Lemma shr_fexp_none m e :
  fexp 53 1024 (Z.pos (digits2_pos m) + e) <= e ->
  shr_fexp 53 1024 (Z.pos m) e loc_Exact
  = ({| shr_m := Z.pos m; shr_r := false; shr_s := false |}, e).
Proof.
  intros H. unfold shr_fexp, shr. simpl Zdigits2.
  destruct (fexp _ _ _ - e) eqn:Hd; try done. lia.
Qed.

(** [binary_round_aux] on an exact positive mantissa: the result is
    neither a zero nor [NaN], and a finite result is the value up to a
    relative error of [2^-53]. *)
Lemma binary_round_aux_units s m e :
  -1074 <= e ->
  match binary_round_aux 53 1024 s (Z.pos m) e loc_Exact with
  | S754_finite s' m' e' =>
      s' = s /\ -1074 <= e'
      /\ 2 ^ 53 * Z.abs (Z.pos m' * 2 ^ (e' + 1074) - Z.pos m * 2 ^ (e + 1074))
         <= Z.pos m * 2 ^ (e + 1074)
  | S754_infinity s' => s' = s
  | _ => False
  end.
Proof.
  intros He. unfold binary_round_aux.
  set (d := Z.pos (digits2_pos m)).
  destruct (Z.le_gt_cases (fexp 53 1024 (d + e)) e) as [Hle|Hgt].
  - rewrite (shr_fexp_none m e Hle). simpl.
    rewrite (shr_fexp_none m e Hle). simpl.
    destruct (e <=? 1024 - 53); [|done].
    split; [done|]. split; [done|].
    rewrite Z.sub_diag. simpl.
    assert (0 < 2 ^ (e + 1074)) by (apply Z.pow_pos_nonneg; lia). lia.
  - rewrite fexp_64 in Hgt.
    assert (53 < d) as Hd by lia.
    pose proof (digits2_pos_bounds m) as [Mlo Mhi]. fold d in Mlo, Mhi.
    destruct (d - 53) as [|n|n] eqn:Hn; try lia.
    unfold shr_fexp at 1. simpl Zdigits2. fold d. rewrite fexp_64.
    replace (Z.max (d + e - 53) (-1074) - e) with (Z.pos n) by lia.
    unfold shr at 1.
    set (W := 2 ^ Z.pos n).
    assert (0 < W) as HW by (apply Z.pow_pos_nonneg; lia).
    assert (2 ^ (d - 1) = 2 ^ 52 * W) as HloW.
    { unfold W. rewrite <- Z.pow_add_r by lia. f_equal. lia. }
    assert (2 ^ d = 2 ^ 53 * W) as HhiW.
    { unfold W. rewrite <- Z.pow_add_r by lia. f_equal. lia. }
    rewrite HloW in Mlo. rewrite HhiW in Mhi.
    assert (shr_inv (Z.pos m) (1 * W)
              (SpecFloat.iter_pos shr_1 n
                 (shr_record_of_loc (Z.pos m) loc_Exact))) as Hinv.
    { apply iter_pos_shr_1_inv; [lia|]. split; [simpl; lia|].
      exists 0. simpl. split; [lia|]. split; [lia|]. done. }
    rewrite Z.mul_1_l in Hinv.
    destruct (round_nearest_even_inv _ _ _ HW Hinv) as [Hm2 Herr].
    destruct Hinv as (Hm1 & T & HT & HM & _).
    set (mrs := SpecFloat.iter_pos shr_1 n _) in *.
    set (m2 := round_nearest_even (shr_m mrs) (loc_of_shr_record mrs)) in *.
    assert (2 ^ 52 <= shr_m mrs < 2 ^ 53) as Hm1b.
    { destruct (shr_r mrs); split; nia. }
    assert (2 ^ 52 <= m2 <= 2 ^ 53) as Hm2b by lia.
    set (P := 2 ^ (e + 1074)).
    assert (0 < P) as HP by (apply Z.pow_pos_nonneg; lia).
    assert (2 ^ (e + Z.pos n + 1074) = W * P) as HWP.
    { unfold W, P. rewrite <- Z.pow_add_r by lia. f_equal. lia. }
    assert (2 ^ 53 * Z.abs (m2 * (W * P) - Z.pos m * P) <= Z.pos m * P) as Hbound.
    { replace (m2 * (W * P) - Z.pos m * P) with ((m2 * W - Z.pos m) * P) by ring.
      rewrite Z.abs_mul, (Z.abs_eq P) by lia.
      rewrite Z.mul_assoc. apply Z.mul_le_mono_nonneg_r; [lia|].
      change (2 ^ 53) with (2 ^ 52 * 2). lia. }
    destruct m2 as [|p2|p2] eqn:Hp2; try lia.
    destruct (Z.eq_dec (Z.pos p2) (2 ^ 53)) as [Heq|Hne].
    + change (2 ^ 53) with 9007199254740992 in Heq. injection Heq as ->.
      unfold shr_fexp. change (Zdigits2 9007199254740992) with 54. rewrite fexp_64.
      replace (Z.max (54 + (e + Z.pos n) - 53) (-1074) - (e + Z.pos n)) with 1 by lia.
      simpl shr. cbv beta iota zeta. cbn [shr_m].
      destruct (e + Z.pos n + 1 <=? 1024 - 53); [|done].
      split; [done|]. split; [lia|].
      replace (e + Z.pos n + 1 + 1074) with (1 + (e + Z.pos n + 1074)) by lia.
      rewrite Z.pow_add_r, HWP by lia.
      change (2 ^ 1) with 2.
      replace (4503599627370496 * (2 * (W * P))) with (9007199254740992 * (W * P)) by lia.
      exact Hbound.
    + rewrite shr_fexp_none.
      2: { rewrite fexp_64.
           rewrite (digits2_pos_unique p2 53) by (change (53 - 1) with 52; lia).
           lia. }
      cbv beta iota zeta. cbn [shr_m].
      destruct (e + Z.pos n <=? 1024 - 53); [|done].
      split; [done|]. split; [lia|].
      rewrite HWP. exact Hbound.
Qed.

(** Shifting a mantissa to the left. *)
Lemma iter_xO_pow m d : Z.pos (Pos.iter xO m d) = Z.pos m * 2 ^ Z.pos d.
Proof.
  apply (Pos.iter_ind _ xO m (fun p a => Z.pos a = Z.pos m * 2 ^ Z.pos p)).
  - change (2 ^ 1) with 2. lia.
  - intros p a IH. rewrite Pos2Z.inj_succ, Z.pow_succ_r by lia. lia.
Qed.

Lemma shl_align_units m e e2 :
  snd (shl_align m e e2) = Z.min e e2
  /\ Z.pos (fst (shl_align m e e2)) = Z.pos m * 2 ^ (e - Z.min e e2).
Proof.
  unfold shl_align. destruct (e2 - e) as [|d|d] eqn:Hd; simpl.
  - replace (Z.min e e2) with e by lia. rewrite Z.sub_diag. lia.
  - replace (Z.min e e2) with e by lia. rewrite Z.sub_diag. lia.
  - replace (Z.min e e2) with e2 by lia. split; [done|].
    rewrite iter_xO_pow. f_equal. f_equal. lia.
Qed.

(** The same for [binary_round], which first aligns the mantissa. *)
Lemma binary_round_units s m e :
  -1074 <= e ->
  match binary_round 53 1024 s m e with
  | S754_finite s' m' e' =>
      s' = s /\ -1074 <= e'
      /\ 2 ^ 53 * Z.abs (Z.pos m' * 2 ^ (e' + 1074) - Z.pos m * 2 ^ (e + 1074))
         <= Z.pos m * 2 ^ (e + 1074)
  | S754_infinity s' => s' = s
  | _ => False
  end.
Proof.
  intros He. unfold binary_round.
  pose proof (shl_align_units m e (fexp 53 1024 (Z.pos (digits2_pos m) + e))) as [Hsnd Hfst].
  destruct (shl_align _ _ _) as [mz ez]. simpl in Hsnd, Hfst.
  assert (-1074 <= ez) as Hez by (rewrite fexp_64 in Hsnd; lia).
  assert (Z.pos mz * 2 ^ (ez + 1074) = Z.pos m * 2 ^ (e + 1074)) as Hval.
  { rewrite Hfst, <- Z.mul_assoc, <- Z.pow_add_r by lia. f_equal. f_equal. lia. }
  pose proof (binary_round_aux_units s mz ez Hez) as Haux.
  destruct (binary_round_aux _ _ _ _ _ _); try done.
  by rewrite <- Hval.
Qed.

(** The exponent of a binary64 number is at least [-1074]. *)
Lemma valid_binary_emin s m e :
  valid_binary (S754_finite s m e) = true -> -1074 <= e.
Proof.
  unfold SpecFloat.valid_binary, bounded, canonical_mantissa. rewrite fexp_64.
  intros [H _]%andb_prop. apply Z.eqb_eq in H. lia.
Qed.

(** Adding two finite numbers that are not of opposite signs: a finite
    result is the sum up to a relative error of [2^-53]. *)
Lemma SFadd_units x y :
  valid_binary x = true -> valid_binary y = true ->
  sf_finite x = true -> sf_finite y = true ->
  0 <= sf_units x * sf_units y ->
  sf_finite (SFadd 53 1024 x y) = true ->
  2 ^ 53 * Z.abs (sf_units (SFadd 53 1024 x y) - (sf_units x + sf_units y))
  <= Z.abs (sf_units x + sf_units y).
Proof.
  intros Vx Vy Fx Fy Hsign.
  destruct x as [sx|sx| |sx mx ex], y as [sy|sy| |sy my ey]; try done.
  - simpl. by destruct sx, sy.
  - simpl. intros _. rewrite Z.sub_diag. simpl. lia.
  - simpl. intros _. replace (_ - _) with 0 by lia. simpl. lia.
  - apply valid_binary_emin in Vx, Vy.
    assert (0 < 2 ^ (ex + 1074)) as Px by (apply Z.pow_pos_nonneg; lia).
    assert (0 < 2 ^ (ey + 1074)) as Py by (apply Z.pow_pos_nonneg; lia).
    assert (sx = sy) as <-.
    { simpl in Hsign. destruct sx, sy; simpl in Hsign; try done; nia. }
    unfold SFadd.
    set (ez := Z.min ex ey).
    pose proof (shl_align_units mx ex ez) as [_ Hx].
    pose proof (shl_align_units my ey ez) as [_ Hy].
    replace (Z.min ex ez) with ez in Hx by lia.
    replace (Z.min ey ez) with ez in Hy by lia.
    set (ax := fst (shl_align mx ex ez)) in *.
    set (ay := fst (shl_align my ey ez)) in *.
    assert (Z.pos (ax + ay) * 2 ^ (ez + 1074)
            = Z.pos mx * 2 ^ (ex + 1074) + Z.pos my * 2 ^ (ey + 1074)) as Hsum.
    { rewrite Pos2Z.inj_add, Z.mul_add_distr_r, Hx, Hy.
      rewrite <- !Z.mul_assoc, <- !Z.pow_add_r by lia.
      do 2 f_equal; f_equal; lia. }
    assert (binary_normalize 53 1024 (cond_Zopp sx (Z.pos ax) + cond_Zopp sx (Z.pos ay)) ez false
            = binary_round 53 1024 sx (ax + ay) ez) as ->.
    { by destruct sx. }
    pose proof (binary_round_units sx (ax + ay) ez ltac:(lia)) as Hround.
    destruct (binary_round _ _ _ _ _) as [| | |s' m' e']; try done.
    intros _. destruct Hround as (-> & He' & Hbound).
    rewrite Hsum in Hbound. simpl sf_units.
    set (X := Z.pos mx * 2 ^ (ex + 1074)) in *.
    set (Y := Z.pos my * 2 ^ (ey + 1074)) in *.
    set (R := Z.pos m' * 2 ^ (e' + 1074)) in *.
    destruct sx; simpl; lia.
Qed.

End Rounding.

(** ** Sums of equal terms, each addition being rounded *)

Section Sums.

Local Open Scope Z_scope.

Variable N : Z.
Hypothesis N_pos : 0 < N.

Lemma rounded_opp r x : rounded N r x -> rounded N (- r) (- x).
Proof.
  unfold rounded. replace (- r - - x) with (- (r - x)) by lia.
  by rewrite !Z.abs_opp.
Qed.

(** A rounded value of a sum that is not negative. *)
Lemma rounded_nonneg r x : 0 <= x -> rounded N r x ->
  0 <= r /\ (N - 1) * x <= N * r <= (N + 1) * x.
Proof. unfold rounded. intros Hx H. nia. Qed.

(** One more rounded addition of [c] to a total of [K] terms: the total
    of [K] terms is [K * c] up to a relative error of [K / N]. *)
Lemma sum_bounds_step (c K x y : Z) :
  0 <= c -> 0 <= K -> K + 1 <= N ->
  K * c * (N - K) <= N * x <= K * c * (N + K) ->
  rounded N y (x + c) ->
  (K + 1) * c * (N - (K + 1)) <= N * y <= (K + 1) * c * (N + (K + 1)).
Proof.
  intros Hc HK HKN IH Hstep.
  assert (0 <= x) as Hs by nia.
  apply rounded_nonneg in Hstep as [Hs' [Hlo Hhi]]; [|lia].
  split.
  - apply (Z.mul_le_mono_pos_l _ _ N); [lia|].
    transitivity ((N - 1) * (K * c * (N - K) + N * c)).
    + assert (0 <= c * (K * N + K * K)) by nia.
      replace (N * ((K + 1) * c * (N - (K + 1))))
        with ((N - 1) * (K * c * (N - K) + N * c) - c * (K * N + K * K)) by ring.
      lia.
    + transitivity ((N - 1) * (N * x + N * c)); [|nia].
      apply Z.mul_le_mono_nonneg_l; lia.
  - apply (Z.mul_le_mono_pos_l _ _ N); [lia|].
    transitivity ((N + 1) * (K * c * (N + K) + N * c)).
    + transitivity ((N + 1) * (N * x + N * c)); [nia|].
      apply Z.mul_le_mono_nonneg_l; lia.
    + assert (0 <= c * (K * (N - K))) by nia.
      replace (N * ((K + 1) * c * (N + (K + 1))))
        with ((N + 1) * (K * c * (N + K) + N * c) + c * (K * (N - K))) by ring.
      lia.
Qed.

(** The total of [2 n] terms against twice the total of [n]. *)
Lemma doubled_sum (c a1 a2 n : Z) :
  0 <= c -> 0 <= n -> 4 * n <= N ->
  n * c * (N - n) <= N * a1 <= n * c * (N + n) ->
  2 * n * c * (N - 2 * n) <= N * a2 <= 2 * n * c * (N + 2 * n) ->
  0 <= a1 /\ N * Z.abs (a2 - 2 * a1) <= 8 * n * a1.
Proof.
  intros Hc Hn HnN [H1lo H1hi] [H2lo H2hi].
  assert (0 <= n * c) as Hnc by nia.
  assert (0 <= a1) as Ha1 by nia.
  split; [done|].
  set (X := n * c * N) in *. set (Y := n * c * n) in *.
  assert (0 <= Y) by (unfold Y; nia).
  assert (n * c * (N - n) = X - Y) as E1 by (unfold X, Y; ring).
  assert (n * c * (N + n) = X + Y) as E2 by (unfold X, Y; ring).
  assert (2 * n * c * (N - 2 * n) = 2 * X - 4 * Y) as E3 by (unfold X, Y; ring).
  assert (2 * n * c * (N + 2 * n) = 2 * X + 4 * Y) as E4 by (unfold X, Y; ring).
  rewrite E1 in H1lo. rewrite E2 in H1hi. rewrite E3 in H2lo. rewrite E4 in H2hi.
  assert (N * Z.abs (a2 - 2 * a1) <= 6 * Y) as H6 by lia.
  (* 6 Y <= 8 n a1, since N a1 >= X - Y and N >= 4 n *)
  assert (4 * Y <= X) as HYX by (unfold X, Y; nia).
  assert (6 * Y * N <= 8 * n * (N * a1)) as HN.
  { transitivity (8 * n * (X - Y)); [|apply Z.mul_le_mono_nonneg_l; lia].
    assert (Y * N = n * X) as HYN by (unfold X, Y; ring).
    assert (4 * (n * Y) <= n * X).
    { replace (4 * (n * Y)) with (n * (4 * Y)) by ring.
      apply Z.mul_le_mono_nonneg_l; lia. }
    replace (6 * Y * N) with (6 * (n * X)) by (rewrite <- HYN; ring).
    replace (8 * n * (X - Y)) with (8 * (n * X) - 8 * (n * Y)) by ring.
    lia. }
  assert (6 * Y <= 8 * n * a1).
  { apply (Z.mul_le_mono_pos_r _ _ N); [lia|]. 
    replace (8 * n * a1 * N) with (8 * n * (N * a1)) by ring. lia. }
  lia.
Qed.

(** The rounded sum of two doubled totals against twice the rounded sum. *)
Lemma doubled_rounded_sum (a1 a2 b1 b2 p1 p2 n : Z) :
  0 <= n -> 8 * n + 6 <= N ->
  0 <= a1 -> 0 <= b1 ->
  N * Z.abs (a2 - 2 * a1) <= 8 * n * a1 ->
  N * Z.abs (b2 - 2 * b1) <= 8 * n * b1 ->
  rounded N p1 (a1 + b1) -> rounded N p2 (a2 + b2) ->
  0 <= p1 /\ N * Z.abs (p2 - 2 * p1) <= (8 * n + 6) * p1.
Proof.
  intros Hn HnN Ha1 Hb1 Ha Hb H1 H2.
  set (A := a1 + b1) in *. set (B := a2 + b2) in *.
  assert (0 <= A) as HA by lia.
  assert (N * Z.abs (B - 2 * A) <= 8 * n * A) as HBA.
  { unfold A, B. replace (a2 + b2 - 2 * (a1 + b1)) with ((a2 - 2 * a1) + (b2 - 2 * b1)) by ring.
    pose proof (Z.abs_triangle (a2 - 2 * a1) (b2 - 2 * b1)). nia. }
  assert (0 <= B) as HB.
  { destruct (Z.le_gt_cases 0 B) as [|Hneg]; [done|]. exfalso.
    assert (8 * n * A <= N * A) by (apply Z.mul_le_mono_nonneg_r; lia).
    assert (N * (2 * A - B) <= N * A) by lia.
    assert (2 * A - B <= A) by (apply (Z.mul_le_mono_pos_l _ _ N); lia).
    lia. }
  apply rounded_nonneg in H1 as [Hp1 [H1lo H1hi]]; [|done].
  unfold rounded in H2. rewrite (Z.abs_eq B) in H2 by done.
  split; [done|].
  assert (N * Z.abs (p1 - A) <= A) as H1' by lia.
  assert (N * B <= 3 * (N * A)) as HB3.
  { assert (N * Z.abs (B - 2 * A) <= N * A).
    { transitivity (8 * n * A); [done|]. apply Z.mul_le_mono_nonneg_r; lia. }
    assert (N * Z.abs (B - 2 * A) = Z.abs (N * B - 2 * (N * A))) as E.
    { rewrite <- (Z.abs_eq N) at 1 by lia. rewrite <- Z.abs_mul. f_equal. ring. }
    lia. }
  assert (B <= 3 * A) as HB3'.
  { apply (Z.mul_le_mono_pos_l _ _ N); [lia|]. lia. }
  assert (N * Z.abs (p2 - 2 * p1) <= (8 * n + 5) * A) as Hall.
  { assert (Z.abs (p2 - 2 * p1)
            <= Z.abs (p2 - B) + Z.abs (B - 2 * A) + 2 * Z.abs (p1 - A)) as Htri by lia.
    apply (Z.mul_le_mono_nonneg_l _ _ N) in Htri; [|lia].
    rewrite !Z.mul_add_distr_l in Htri.
    replace (N * (2 * Z.abs (p1 - A))) with (2 * (N * Z.abs (p1 - A))) in Htri by ring.
    replace ((8 * n + 5) * A) with (3 * A + 8 * n * A + 2 * A) by ring.
    lia. }
  assert ((8 * n + 5) * A <= (8 * n + 6) * p1); [|lia].
  apply (Z.mul_le_mono_pos_r _ _ N); [lia|].
  assert (0 <= A * (N - (8 * n + 6))) as HaN by (apply Z.mul_nonneg_nonneg; lia).
  assert ((8 * n + 6) * ((N - 1) * A) <= (8 * n + 6) * (N * p1)) as HbN
    by (apply Z.mul_le_mono_nonneg_l; lia).
  lia.
Qed.

End Sums.

(** [is_finite] on the specification side. *)
Lemma is_finite_spec x : is_finite x = sf_finite (Prim2SF x).
Proof.
  unfold is_finite, is_nan, is_infinity.
  rewrite !FloatAxioms.eqb_spec, abs_spec.
  change (Prim2SF infinity) with (S754_infinity false).
  destruct (Prim2SF x) as [s|s| |s m e] eqn:Hx; try done.
  - by destruct s.
  - unfold SFeqb. simpl. rewrite Z.compare_refl, Pos.compare_cont_refl.
    by destruct s.
Qed.

(** A finite sum has finite terms. *)
Lemma add_finite_inv a b :
  is_finite (a + b) = true -> is_finite a = true /\ is_finite b = true.
Proof.
  rewrite !is_finite_spec, add_spec.
  destruct (Prim2SF a) as [sa|sa| |sa ma ea], (Prim2SF b) as [sb|sb| |sb mb eb];
    try done; simpl; by destruct sa, sb.
Qed.

(** The rounding of one addition of the code. *)
Lemma add_units a b :
  is_finite (a + b) = true ->
  (0 <= units a * units b)%Z ->
  (2 ^ 53 * Z.abs (units (a + b) - (units a + units b))
   <= Z.abs (units a + units b))%Z.
Proof.
  intros Hfin Hsign. destruct (add_finite_inv a b Hfin) as [Ha Hb].
  rewrite is_finite_spec in Hfin, Ha, Hb. unfold units in *.
  rewrite add_spec in *.
  apply SFadd_units; try done; apply Prim2SF_valid.
Qed.

(** The last addition of a running total. *)
Lemma add_repeatedly_S n c t : add_repeatedly (S n) c t = add_repeatedly n c t + c.
Proof. unfold add_repeatedly. by rewrite seq_S, fold_left_app. Qed.

(** The totals on the way to a finite total are finite. *)
Lemma add_repeatedly_finite n c k :
  is_finite (add_repeatedly n c 0) = true -> (k <= n)%nat ->
  is_finite (add_repeatedly k c 0) = true.
Proof.
  induction n as [|n IH]; intros Hfin Hk.
  - by replace k with 0%nat by lia.
  - destruct (decide (k = S n)) as [->|]; [done|].
    rewrite add_repeatedly_S in Hfin. apply add_finite_inv in Hfin as [Hfin _].
    apply IH; [done|lia].
Qed.

(** A sign that makes a number not negative. *)
Lemma sign_cases (x : Z) : exists sigma, (sigma = 1 \/ sigma = -1)%Z /\ (0 <= sigma * x)%Z.
Proof.
  destruct (Z.le_gt_cases 0 x); [exists 1%Z | exists (-1)%Z]; split; lia.
Qed.

Lemma rounded_sign sigma r x :
  (sigma = 1 \/ sigma = -1)%Z ->
  rounded (2 ^ 53) r x -> rounded (2 ^ 53) (sigma * r) (sigma * x).
Proof.
  intros [-> | ->] H.
  - by rewrite !Z.mul_1_l.
  - replace (-1 * r)%Z with (- r)%Z by lia. replace (-1 * x)%Z with (- x)%Z by lia.
    by apply rounded_opp.
Qed.

(** The total of [n] equal terms is [n] times the term, up to a relative
    error of [n / 2^53]. *)
Lemma add_repeatedly_bounds sigma c n :
  (sigma = 1 \/ sigma = -1)%Z -> (0 <= sigma * units c)%Z ->
  is_finite (add_repeatedly n c 0) = true ->
  (Z.of_nat n <= 2 ^ 53)%Z ->
  (Z.of_nat n * (sigma * units c) * (2 ^ 53 - Z.of_nat n)
   <= 2 ^ 53 * (sigma * units (add_repeatedly n c 0))
   <= Z.of_nat n * (sigma * units c) * (2 ^ 53 + Z.of_nat n))%Z.
Proof.
  intros Hsigma Hc. induction n as [|n IH]; intros Hfin Hn.
  - change (units (add_repeatedly 0 c 0)) with 0%Z. lia.
  - rewrite add_repeatedly_S in *.
    pose proof Hfin as [Hfin' _]%add_finite_inv.
    specialize (IH Hfin' ltac:(lia)).
    set (x := units (add_repeatedly n c 0)) in *.
    assert (0 <= sigma * x)%Z as Hx by nia.
    assert (0 <= x * units c)%Z as Hsign.
    { replace (x * units c)%Z with ((sigma * x) * (sigma * units c))%Z
        by (destruct Hsigma as [-> | ->]; ring).
      by apply Z.mul_nonneg_nonneg. }
    pose proof (add_units _ _ Hfin Hsign) as Hround. fold x in Hround.
    apply (rounded_sign sigma) in Hround; [|done].
    rewrite Z.mul_add_distr_l in Hround.
    rewrite Nat2Z.inj_succ, <- Z.add_1_r.
    apply (sum_bounds_step (2 ^ 53) ltac:(lia) (sigma * units c) (Z.of_nat n) (sigma * x));
      try done; lia.
Qed.

(** The total of [2 n] equal terms is twice the total of [n], up to a
    relative error of [4 n / 2^53]. *)
Lemma add_repeatedly_doubled sigma c n :
  (sigma = 1 \/ sigma = -1)%Z -> (0 <= sigma * units c)%Z ->
  is_finite (add_repeatedly (2 * n) c 0) = true ->
  (8 * Z.of_nat n <= 2 ^ 53)%Z ->
  (0 <= sigma * units (add_repeatedly n c 0))%Z
  /\ (0 <= sigma * units (add_repeatedly (2 * n) c 0))%Z
  /\ (2 ^ 53 * Z.abs (sigma * units (add_repeatedly (2 * n) c 0)
                      - 2 * (sigma * units (add_repeatedly n c 0)))
      <= 8 * Z.of_nat n * (sigma * units (add_repeatedly n c 0)))%Z.
Proof.
  intros Hsigma Hc Hfin Hn.
  pose proof (add_repeatedly_bounds sigma c (2 * n) Hsigma Hc Hfin ltac:(lia)) as H2.
  pose proof (add_repeatedly_bounds sigma c n Hsigma Hc
                (add_repeatedly_finite _ _ n Hfin ltac:(lia)) ltac:(lia)) as H1.
  rewrite Nat2Z.inj_mul in H2. change (Z.of_nat 2) with 2%Z in H2.
  destruct (doubled_sum (2 ^ 53) ltac:(lia) (sigma * units c)
              (sigma * units (add_repeatedly n c 0))
              (sigma * units (add_repeatedly (2 * n) c 0)) (Z.of_nat n)
              Hc ltac:(lia) ltac:(lia) H1 H2)
    as [Ha1 Hd].
  split; [done|]. split; [|done]. nia.
Qed.

(** The sum of two such totals, as [memory.perToken] is of the K and V
    totals. *)
Lemma perToken_doubled cK cV n :
  let p1 := add_repeatedly n cK 0 + add_repeatedly n cV 0 in
  let p2 := add_repeatedly (2 * n) cK 0 + add_repeatedly (2 * n) cV 0 in
  is_finite p1 = true -> is_finite p2 = true ->
  (0 <= units cK * units cV)%Z ->
  (8 * Z.of_nat n + 6 <= 2 ^ 53)%Z ->
  doubled_within (4 * Z.of_nat n + 3) p1 p2 = true.
Proof.
  intros p1 p2 Hp1 Hp2 Hsign Hn.
  destruct (sign_cases (units cK + units cV)) as (sigma & Hsigma & Hsum).
  assert (0 <= sigma * units cK /\ 0 <= sigma * units cV)%Z as [HK HV].
  { destruct Hsigma as [-> | ->]; nia. }
  pose proof Hp2 as [HK2 HV2]%add_finite_inv.
  destruct (add_repeatedly_doubled sigma cK n Hsigma HK HK2 ltac:(lia)) as (Ha1 & Ha2 & Ha).
  destruct (add_repeatedly_doubled sigma cV n Hsigma HV HV2 ltac:(lia)) as (Hb1 & Hb2 & Hb).
  set (a1 := units (add_repeatedly n cK 0)) in *.
  set (a2 := units (add_repeatedly (2 * n) cK 0)) in *.
  set (b1 := units (add_repeatedly n cV 0)) in *.
  set (b2 := units (add_repeatedly (2 * n) cV 0)) in *.
  assert (forall x y, 0 <= sigma * x -> 0 <= sigma * y -> 0 <= x * y)%Z as Hprod.
  { intros x y Hx Hy.
    replace (x * y)%Z with ((sigma * x) * (sigma * y))%Z
      by (destruct Hsigma as [-> | ->]; ring).
    by apply Z.mul_nonneg_nonneg. }
  pose proof (add_units _ _ Hp1 (Hprod _ _ Ha1 Hb1)) as H1.
  pose proof (add_units _ _ Hp2 (Hprod _ _ Ha2 Hb2)) as H2.
  fold p1 a1 b1 in H1. fold p2 a2 b2 in H2.
  apply (rounded_sign sigma) in H1, H2; try done.
  rewrite Z.mul_add_distr_l in H1, H2.
  destruct (doubled_rounded_sum (2 ^ 53) ltac:(lia) (sigma * a1) (sigma * a2)
              (sigma * b1) (sigma * b2) (sigma * units p1) (sigma * units p2)
              (Z.of_nat n) ltac:(lia) Hn Ha1 Hb1 Ha Hb H1 H2) as [Hp Hd].
  unfold doubled_within. apply Z.leb_le.
  replace (units p2 - 2 * units p1)%Z
    with (sigma * (sigma * units p2 - 2 * (sigma * units p1)))%Z
    by (destruct Hsigma as [-> | ->]; ring).
  rewrite Z.abs_mul.
  replace (Z.abs sigma) with 1%Z by (destruct Hsigma as [-> | ->]; done).
  replace (Z.abs (2 * units p1)) with (2 * (sigma * units p1))%Z
    by (destruct Hsigma as [-> | ->]; lia).
  lia.
Qed.

(** One such total, as that of the compute loop. *)
Lemma layers_doubled c n :
  is_finite (add_repeatedly (2 * n) c 0) = true ->
  (8 * Z.of_nat n <= 2 ^ 53)%Z ->
  doubled_within (4 * Z.of_nat n) (add_repeatedly n c 0) (add_repeatedly (2 * n) c 0)
  = true.
Proof.
  intros Hfin Hn.
  destruct (sign_cases (units c)) as (sigma & Hsigma & Hc).
  destruct (add_repeatedly_doubled sigma c n Hsigma Hc Hfin Hn) as (H1 & _ & Hd).
  unfold doubled_within. apply Z.leb_le.
  set (x := units (add_repeatedly n c 0)) in *.
  set (y := units (add_repeatedly (2 * n) c 0)) in *.
  replace (y - 2 * x)%Z with (sigma * (sigma * y - 2 * (sigma * x)))%Z
    by (destruct Hsigma as [-> | ->]; ring).
  rewrite Z.abs_mul.
  replace (Z.abs sigma) with 1%Z by (destruct Hsigma as [-> | ->]; done).
  replace (Z.abs (2 * x)) with (2 * (sigma * x))%Z
    by (destruct Hsigma as [-> | ->]; lia).
  lia.
Qed.

Section Properties.

Context {GGMLQuantizationType : Type}.
Variable F16 : GGMLQuantizationType.
Variable GGML_QUANT_SIZES : GGMLQuantizationType -> float.

(** What the estimator computes from the variables it reads. *)
Lemma estimate_of_hparams config md tensorInfos h :
  read_hparams md = Returns h ->
  estimateRuntimeRequirement F16 GGML_QUANT_SIZES config md tensorInfos =
    if unsupported (arch h) then Throws (Error (unsupported_message (arch h)))
    else
      len ← Array_length (n_layer h);
      let cache :=
        cacheMBytes GGML_QUANT_SIZES len (n_embd_head_k h) (n_embd_head_v h)
          (n_head_kv_arr len (n_head h) (n_head_kv h))
          (default F16 (kvTypeK config)) (default F16 (kvTypeV config)) in
      Returns {|
        memory := {| perToken := cache.1 + cache.2;
                     weight := mBytesWeight GGML_QUANT_SIZES tensorInfos |};
        compute := {| gFloatOps :=
          gFloatOps_layers len (n_embd h) (n_ff h)
            (moe_ratio (n_expert_used h) (n_expert h))
          + floatOpsMatMul (n_embd h) (n_vocab h) 1 * TO_GIGA |};
      |}.
Proof.
  intros H. unfold read_hparams in H. peel H.
  injection H as <-. simpl.
  unfold estimateRuntimeRequirement.
  rewrite Hread. simpl.
  destruct (unsupported _); [done|].
  repeat match goal with
    | Hx : ?m = Returns _ |- context [?m] => rewrite Hx; simpl
    end.
  destruct (Array_length _) as [len| |]; simpl; [|done..].
  destruct (cacheMBytes _ _ _ _ _ _ _) as [k v] eqn:Hc.
  repeat match goal with
    | Hx : ?m = Returns _ |- context [?m] => rewrite Hx; simpl
    end.
  done.
Qed.

(** A returned estimate was computed from well-typed metadata. *)
Lemma estimate_Returns_hparams config md tensorInfos r :
  estimateRuntimeRequirement F16 GGML_QUANT_SIZES config md tensorInfos = Returns r ->
  exists h, read_hparams md = Returns h.
Proof.
  unfold estimateRuntimeRequirement, read_hparams. intros H.
  apply bind_Returns_inv in H as (a & -> & H). simpl.
  destruct (unsupported a); [discriminate|].
  peel H.
  destruct (cacheMBytes _ _ _ _ _ _ _) as [k v].
  peel H.
  repeat match goal with
    | Hx : ?m = Returns _ |- context [?m] => rewrite Hx; simpl
    end.
  eauto.
Qed.

(** Well-typed metadata of a supported architecture with a block count
    that is an array length always gets an estimate. *)
Lemma estimate_returns config md tensorInfos h len :
  read_hparams md = Returns h ->
  unsupported (arch h) = false ->
  Array_length (n_layer h) = Returns len ->
  exists r, estimateRuntimeRequirement F16 GGML_QUANT_SIZES config md tensorInfos = Returns r.
Proof.
  intros H Hs Hl. rewrite (estimate_of_hparams _ _ _ _ H), Hs, Hl. simpl. eauto.
Qed.

(** The only [Error] the estimator throws is the rejection of line 41. *)
Lemma estimate_Error_inv config md tensorInfos message :
  estimateRuntimeRequirement F16 GGML_QUANT_SIZES config md tensorInfos = Throws (Error message) ->
  exists arch,
    lookup_or as_string md "general.architecture" "unknown" = Returns arch
    /\ unsupported arch = true /\ message = unsupported_message arch.
Proof.
  unfold estimateRuntimeRequirement.
  destruct (lookup_or as_string _ _ _) as [a|e|] eqn:Ha; simpl; [| |discriminate].
  2: { by apply lookup_or_not_Throws in Ha; [|intros ? []]. }
  destruct (unsupported a) eqn:Hs.
  - intros [= <-]. eauto.
  - repeat read_or_fail.
    unfold Array_length.
    destruct (integer_value _) as [v|]; simpl; [|discriminate].
    destruct (_ && _); simpl; [|discriminate].
    destruct (cacheMBytes _ _ _ _ _ _ _).
    repeat read_or_fail.
    discriminate.
Qed.

(** C2: an architecture name that begins with "mamba" or "rwkv"
    (compared character by character, so case-sensitively) makes the call
    throw the unsupported-architecture error, whose message carries the
    name, whatever the rest of the input is, and nothing is returned;
    "mamba-2" and "rwkv-v5" are such names. For "llama" that error is
    never thrown, and well-typed metadata whose block count is an array
    length gets an estimate. *)
Theorem unsupported_architecture_rejected :
  (forall config md tensorInfos name,
      md !! "general.architecture" = Some (MString name) ->
      String.prefix "mamba" name = true \/ String.prefix "rwkv" name = true ->
      estimateRuntimeRequirement F16 GGML_QUANT_SIZES config md tensorInfos
      = Throws (Error (unsupported_message name))
      /\ unsupported_message name =
           "Memory usage estimation for arch " +:+ dquote +:+ name +:+ dquote
             +:+ " is not supported")
  /\ unsupported "mamba-2" = true /\ unsupported "rwkv-v5" = true
  /\ unsupported "Mamba-2" = false
  /\ (forall config md tensorInfos,
        md !! "general.architecture" = Some (MString "llama") ->
        (forall message,
            estimateRuntimeRequirement F16 GGML_QUANT_SIZES config md tensorInfos
            <> Throws (Error message))
        /\ (forall h len,
              read_hparams md = Returns h ->
              Array_length (n_layer h) = Returns len ->
              exists r,
                estimateRuntimeRequirement F16 GGML_QUANT_SIZES config md tensorInfos
                = Returns r)).
Proof.
  split; [|split; [done|split; [done|split; [done|]]]].
  - intros config md tensorInfos name Hname Hprefix. split; [|done].
    unfold estimateRuntimeRequirement, lookup_or. rewrite Hname. simpl.
    unfold unsupported.
    destruct Hprefix as [-> | ->]; [done | by rewrite orb_true_r].
  - intros config md tensorInfos Hname. split.
    + intros message H. apply estimate_Error_inv in H as (a & Ha & Hs & _).
      unfold lookup_or in Ha. rewrite Hname in Ha. simpl in Ha.
      injection Ha as <-. discriminate.
    + intros h len Hh Hlen.
      assert (arch h = "llama") as Harch.
      { unfold read_hparams, lookup_or in Hh. rewrite Hname in Hh. simpl in Hh.
        peel Hh. by injection Hh as <-. }
      apply (estimate_returns config md tensorInfos h len Hh); [|done].
      by rewrite Harch.
Qed.

(** C4: the head count used for layer [i] of the [block_count] layers is,
    when [head_count_kv] is a sequence, its [i]-th entry if there is one
    and it is truthy, and [head_count] otherwise; when it is a scalar, that
    scalar; when it is absent, [head_count]. The resolved sequence has
    length [block_count]. *)
Theorem head_count_kv_resolution md h n i :
  read_hparams md = Returns h ->
  Array_length (n_layer h) = Returns n ->
  (i < n)%nat ->
  let resolved := n_head_kv_arr n (n_head h) (n_head_kv h) in
  length resolved = n
  /\ resolved !! i = Some
       match md !! (arch h +:+ ".attention.head_count_kv") with
       | Some (MNumbers entries) =>
           match entries !! i with
           | Some entry => if truthy entry then entry else n_head h
           | None => n_head h
           end
       | Some (MNumber scalar) => scalar
       | _ => n_head h
       end.
Proof.
  intros H _ Hi resolved. split; [apply n_head_kv_arr_length|].
  unfold resolved. rewrite n_head_kv_arr_lookup by done. f_equal.
  apply read_hparams_inv in H as (_ & _ & _ & _ & _ & Hkv & _).
  unfold lookup_or in Hkv.
  destruct (md !! _) as [[s|x|xs]|]; simpl in Hkv; try discriminate;
    injection Hkv as <-; simpl; done.
Qed.

(** C1: for a supported architecture the estimate is returned and its
    [memory.perToken] is the K-cache total plus the V-cache total, each
    accumulated over the [block_count] layers, the term of layer [i] being
    [n_embd_head * effective_head_count_kv[i] * (bits / 8) * 1e-6]. *)
Theorem perToken_formula config md tensorInfos h n :
  read_hparams md = Returns h ->
  unsupported (arch h) = false ->
  Array_length (n_layer h) = Returns n ->
  exists r,
    estimateRuntimeRequirement F16 GGML_QUANT_SIZES config md tensorInfos = Returns r
    /\ perToken (memory r) =
         layer_total n (fun i =>
           n_embd_head_k h * effective_head_count_kv (n_head h) (n_head_kv h) i
           * (GGML_QUANT_SIZES (default F16 (kvTypeK config)) / 8) * 1e-6)
         + layer_total n (fun i =>
           n_embd_head_v h * effective_head_count_kv (n_head h) (n_head_kv h) i
           * (GGML_QUANT_SIZES (default F16 (kvTypeV config)) / 8) * 1e-6).
Proof.
  intros H Hs Hn. rewrite (estimate_of_hparams _ _ _ _ H), Hs, Hn. simpl.
  eexists. split; [done|]. simpl.
  rewrite cacheMBytes_totals. simpl. unfold TO_MEGA.
  f_equal; apply layer_total_ext; intros i Hi; unfold index_number;
    by rewrite n_head_kv_arr_lookup.
Qed.

(** C5: the ratio used in the compute step is
    [max(1, min(1, expert_used_count) / min(1, expert_count))], each count
    being 1 when absent. It is exactly 1 when both counts are absent, and
    exactly 1 for every pair of counts that are both at least 1. *)
Theorem moe_ratio_formula :
  (forall config md tensorInfos h n,
      read_hparams md = Returns h ->
      unsupported (arch h) = false ->
      Array_length (n_layer h) = Returns n ->
      exists r,
        estimateRuntimeRequirement F16 GGML_QUANT_SIZES config md tensorInfos = Returns r
        /\ gFloatOps (compute r) =
             gFloatOps_layers n (n_embd h) (n_ff h)
               (spec_moe_ratio (number_field md (arch h +:+ ".expert_used_count"))
                               (number_field md (arch h +:+ ".expert_count")))
             + floatOpsMatMul (n_embd h) (n_vocab h) 1 * TO_GIGA)
  /\ spec_moe_ratio None None = 1
  /\ (forall used count,
        (1 <=? used) = true -> (1 <=? count) = true ->
        moe_ratio used count = 1
        /\ spec_moe_ratio (Some used) (Some count) = 1
        /\ spec_moe_ratio (Some used) None = 1
        /\ spec_moe_ratio None (Some count) = 1).
Proof.
  split; [|split; [done|]].
  - intros config md tensorInfos h n H Hs Hn.
    rewrite (estimate_of_hparams _ _ _ _ H), Hs, Hn. simpl.
    eexists. split; [done|]. simpl. do 2 f_equal.
    apply read_hparams_inv in H
      as (_ & _ & _ & _ & _ & _ & _ & Hcount & Hused & _).
    unfold moe_ratio, spec_moe_ratio, number_field.
    unfold lookup_or in Hcount, Hused.
    destruct (md !! (arch h +:+ ".expert_count")) as [[| |]|];
      destruct (md !! (arch h +:+ ".expert_used_count")) as [[| |]|];
      simpl in *; try discriminate;
      injection Hcount as <-; injection Hused as <-; done.
  - intros used count Hused Hcount.
    unfold spec_moe_ratio, moe_ratio. simpl.
    rewrite !Math_min_one by done.
    change (Math_min 1 1) with 1. done.
Qed.

(** C6: with a tensor manifest, [memory.weight] is the total over the
    tensors of the element count (the product of the dimensions, over the
    integers, then narrowed to a number) times [bits(dtype) / 8] times
    [1e-6]; without one it is exactly 0 and the estimate is returned all
    the same. *)
Theorem weight_formula config md h n :
  read_hparams md = Returns h ->
  unsupported (arch h) = false ->
  Array_length (n_layer h) = Returns n ->
  (forall tensors, exists r,
      estimateRuntimeRequirement F16 GGML_QUANT_SIZES config md (Some tensors) = Returns r
      /\ weight (memory r) = weight_total GGML_QUANT_SIZES tensors)
  /\ (exists r,
        estimateRuntimeRequirement F16 GGML_QUANT_SIZES config md None = Returns r
        /\ weight (memory r) = 0).
Proof.
  intros H Hs Hn. split; [intros tensors|];
    rewrite (estimate_of_hparams _ _ _ _ H), Hs, Hn; simpl;
    (eexists; split; [done|]); simpl; [|done].
  unfold mBytesWeight, weight_total. simpl.
  apply fold_left_ext_in. intros total t _.
  by rewrite fold_left_mul_element_count.
Qed.

(** C10: two calls that differ only in the configuration end the same
    way and, when they return, return the same [memory.weight] and the
    same [compute.gFloatOps]. *)
Theorem config_noninterference config1 config2 md tensorInfos :
  (fun r => (weight (memory r), gFloatOps (compute r)))
    <$> estimateRuntimeRequirement F16 GGML_QUANT_SIZES config1 md tensorInfos
  = (fun r => (weight (memory r), gFloatOps (compute r)))
    <$> estimateRuntimeRequirement F16 GGML_QUANT_SIZES config2 md tensorInfos.
Proof.
  unfold estimateRuntimeRequirement.
  destruct (lookup_or as_string _ _ _) as [a| |]; simpl; [|done..].
  destruct (unsupported a); [done|].
  repeat match goal with
    | |- context [lookup_or ?c ?m ?k ?d] =>
        destruct (lookup_or c m k d) as [?| |]; simpl; [|done..]
    end.
  destruct (Array_length _) as [len| |]; simpl; [|done..].
  do 2 destruct (cacheMBytes _ _ _ _ _ _ _).
  repeat match goal with
    | |- context [lookup_or ?c ?m ?k ?d] =>
        destruct (lookup_or c m k d) as [?| |]; simpl; [|done..]
    end.
  done.
Qed.

(** C9: without a "general.architecture" key the architecture name is
    "unknown": the call behaves as if that name had been given, so every
    lookup uses the prefix "unknown."; it never throws the
    unsupported-architecture error; and when no key of the metadata has
    that prefix every field takes its default and the estimate is
    returned. *)
Theorem absent_architecture config md tensorInfos :
  md !! "general.architecture" = None ->
  estimateRuntimeRequirement F16 GGML_QUANT_SIZES config md tensorInfos
  = estimateRuntimeRequirement F16 GGML_QUANT_SIZES config
      (<["general.architecture" := MString "unknown"]> md) tensorInfos
  /\ (forall message,
        estimateRuntimeRequirement F16 GGML_QUANT_SIZES config md tensorInfos
        <> Throws (Error message))
  /\ ((forall key, String.prefix "unknown." key = true -> md !! key = None) ->
      read_hparams md = Returns {|
        arch := "unknown"; n_embd := 0; n_head := 0;
        n_embd_head_k := 0 / 0; n_embd_head_v := 0 / 0;
        n_head_kv := inl []; n_layer := 0;
        n_expert := 1; n_expert_used := 1; n_ff := 1; n_vocab := 1 |}
      /\ estimateRuntimeRequirement F16 GGML_QUANT_SIZES config md tensorInfos = Returns {|
           memory := {| perToken := 0;
                        weight := mBytesWeight GGML_QUANT_SIZES tensorInfos |};
           compute := {| gFloatOps := 0 |} |}).
Proof.
  intros Habsent. split; [|split].
  - unfold estimateRuntimeRequirement.
    rewrite (lookup_or_absent _ _ _ _ Habsent).
    assert (lookup_or as_string (<["general.architecture" := MString "unknown"]> md)
              "general.architecture" "unknown" = Returns "unknown") as ->.
    { unfold lookup_or. by rewrite lookup_insert_eq. }
    simpl.
    repeat first
      [ rewrite lookup_or_insert_ne by done
      | match goal with
        | |- (?m ≫= _) = (?m ≫= _) => destruct m; simpl; [|done..]
        | |- context [cacheMBytes ?s ?n ?k ?v ?a ?tk ?tv] =>
            destruct (cacheMBytes s n k v a tk tv)
        end ].
    done.
  - intros message H. apply estimate_Error_inv in H as (a & Ha & Hs & _).
    rewrite (lookup_or_absent _ _ _ _ Habsent) in Ha. injection Ha as <-.
    discriminate.
  - intros Hnone.
    assert (read_hparams md = Returns {|
        arch := "unknown"; n_embd := 0; n_head := 0;
        n_embd_head_k := 0 / 0; n_embd_head_v := 0 / 0;
        n_head_kv := inl []; n_layer := 0;
        n_expert := 1; n_expert_used := 1; n_ff := 1; n_vocab := 1 |}) as Hh.
    { unfold read_hparams.
      rewrite (lookup_or_absent _ _ _ _ Habsent). simpl.
      repeat (rewrite lookup_or_absent by (by apply Hnone); simpl). done. }
    split; [done|].
    rewrite (estimate_of_hparams _ _ _ _ Hh). simpl.
    change (Array_length 0) with (@Returns nat 0%nat). simpl.
    do 2 f_equal.
Qed.

(** C3 (amended): in the concrete scenario ("llama", embedding length
    4096, 32 heads, scalar [head_count_kv] 32, 32 blocks, key and value
    length 128, no manifest, 16-bit cache types) the estimate is returned
    with [memory.perToken] 0.524288 up to rounding (32 layers of 8192 bytes
    for K plus as many for V), [memory.weight] 0 and a positive, finite
    [compute.gFloatOps]. *)
Theorem concrete_scenario :
  GGML_QUANT_SIZES F16 = 16 ->
  exists r,
    estimateRuntimeRequirement F16 GGML_QUANT_SIZES
      {| kvTypeK := Some F16; kvTypeV := Some F16 |} Sample.llama None = Returns r
    /\ perToken (memory r) = 0.52428800000000009
    /\ (abs (perToken (memory r) - 0.524288) <=? 1e-15) = true
    /\ weight (memory r) = 0
    /\ (0 <? gFloatOps (compute r)) = true
    /\ is_finite (gFloatOps (compute r)) = true.
Proof.
  intros Hbits.
  eexists. split; [vm_compute; reflexivity|].
  vm_compute. rewrite Hbits. by vm_compute.
Qed.

(** C7 (amended): on an input that is not rejected the estimate is
    returned. None of its numbers is negative (each is at least 0, or is
    [NaN]) when the numbers it is computed from are not negative in that
    same sense: [memory.perToken] when the key and value lengths, the
    effective [head_count_kv] of every layer and the bit widths of the two
    cache types are not; [memory.weight] when no dimension and no bit width
    of a listed tensor is; [compute.gFloatOps] when the embedding length,
    the feed-forward length and the vocabulary size are not. What the
    estimator does not read does not matter. With a block count of zero
    [memory.perToken] is 0 and the compute loop contributes 0, so that
    [compute.gFloatOps] is the output term alone. *)
Theorem derived_quantities_not_negative config md tensorInfos h n :
  read_hparams md = Returns h ->
  unsupported (arch h) = false ->
  Array_length (n_layer h) = Returns n ->
  exists r,
    estimateRuntimeRequirement F16 GGML_QUANT_SIZES config md tensorInfos = Returns r
    /\ (not_negative (n_embd_head_k h) ->
        not_negative (n_embd_head_v h) ->
        (forall i, (i < n)%nat ->
           not_negative (effective_head_count_kv (n_head h) (n_head_kv h) i)) ->
        not_negative (GGML_QUANT_SIZES (default F16 (kvTypeK config))) ->
        not_negative (GGML_QUANT_SIZES (default F16 (kvTypeV config))) ->
        not_negative (perToken (memory r)))
    /\ ((forall tensor, tensor ∈ default [] tensorInfos ->
           not_negative (GGML_QUANT_SIZES (dtype tensor))
           /\ Forall (fun d => 0 <= d)%Z (shape tensor)) ->
        not_negative (weight (memory r)))
    /\ (not_negative (n_embd h) ->
        not_negative (n_ff h) ->
        not_negative (n_vocab h) ->
        not_negative (gFloatOps (compute r)))
    /\ (n = 0%nat ->
        perToken (memory r) = 0
        /\ gFloatOps_layers n (n_embd h) (n_ff h)
             (moe_ratio (n_expert_used h) (n_expert h)) = 0
        /\ gFloatOps (compute r) = 0 + floatOpsMatMul (n_embd h) (n_vocab h) 1 * TO_GIGA).
Proof.
  intros H Hs Hn. rewrite (estimate_of_hparams _ _ _ _ H), Hs, Hn. simpl.
  eexists. split; [done|]. simpl.
  assert (not_negative 0) as Hzero by (by apply sign_clear_not_negative).
  split; [|split; [|split; [|by intros ->]]].
  - intros Hk Hv Heff HbitsK HbitsV.
    rewrite cacheMBytes_totals. simpl. unfold layer_total.
    apply not_negative_add; (apply not_negative_total; [done|]); intros i Hi;
      apply elem_of_seq in Hi; unfold index_number;
      rewrite n_head_kv_arr_lookup by lia; simpl; unfold TO_MEGA;
      pose proof (Heff i ltac:(lia)); by not_negative.
  - intros Htensors.
    unfold mBytesWeight. apply not_negative_total; [done|].
    intros tensor [Hbits Hdims]%Htensors.
    rewrite fold_left_mul_element_count. unfold TO_MEGA.
    assert (not_negative (Number_of_bigint (element_count (shape tensor)))).
    { by apply sign_clear_not_negative, Number_of_bigint_sign_clear,
        element_count_nonneg. }
    by not_negative.
  - intros Hembd Hff Hvocab.
    assert (not_negative (moe_ratio (n_expert_used h) (n_expert h))) as Hmoe
      by apply sign_clear_not_negative, moe_ratio_sign_clear.
    unfold gFloatOps_layers, floatOpsMatMul, floatOpsLayer, TO_GIGA.
    apply not_negative_add; [apply not_negative_total; [done|]; intros _ _|];
      by not_negative.
Qed.

(** C8 (amended): with a scalar or absent [head_count_kv], the call with
    [2 n] blocks, every other field being the same, continues each running
    total of the call with [n] blocks (K cache, V cache, per-layer compute)
    by [n] further additions of the same per-layer term. Each addition
    rounds, so the doubling is not exact, but it holds up to rounding: when
    the numbers returned are finite and the two cache terms are not of
    opposite signs, [memory.perToken] of the [2 n]-block call is twice that
    of the [n]-block call up to a relative error of [(4 n + 3) / 2^53], and
    the per-layer part of [compute.gFloatOps] (the total of the compute
    loop, to which the output term is added last) up to [4 n / 2^53]. *)
Theorem doubling_block_count config md1 md2 tensorInfos h n block_count :
  read_hparams md1 = Returns h ->
  read_hparams md2 = Returns (with_block_count h block_count) ->
  unsupported (arch h) = false ->
  (exists scalar, n_head_kv h = inr scalar) \/ n_head_kv h = inl [] ->
  Array_length (n_layer h) = Returns n ->
  Array_length block_count = Returns (2 * n)%nat ->
  let head_count_kv := effective_head_count_kv (n_head h) (n_head_kv h) 0 in
  let termK := n_embd_head_k h * head_count_kv
               * (GGML_QUANT_SIZES (default F16 (kvTypeK config)) / 8) * 1e-6 in
  let termV := n_embd_head_v h * head_count_kv
               * (GGML_QUANT_SIZES (default F16 (kvTypeV config)) / 8) * 1e-6 in
  let termL := floatOpsLayer (n_embd h) (n_ff h)
                 (moe_ratio (n_expert_used h) (n_expert h)) * 1e-9 in
  let output := 2 * n_embd h * n_vocab h * 1 * 1e-9 in
  exists r1 r2,
    estimateRuntimeRequirement F16 GGML_QUANT_SIZES config md1 tensorInfos = Returns r1
    /\ estimateRuntimeRequirement F16 GGML_QUANT_SIZES config md2 tensorInfos = Returns r2
    /\ perToken (memory r1) = add_repeatedly n termK 0 + add_repeatedly n termV 0
    /\ perToken (memory r2) =
         add_repeatedly n termK (add_repeatedly n termK 0)
         + add_repeatedly n termV (add_repeatedly n termV 0)
    /\ gFloatOps (compute r1) = add_repeatedly n termL 0 + output
    /\ gFloatOps (compute r2) =
         add_repeatedly n termL (add_repeatedly n termL 0) + output
    /\ (is_finite (perToken (memory r1)) = true ->
        is_finite (perToken (memory r2)) = true ->
        (0 <= units termK * units termV)%Z ->
        doubled_within (4 * Z.of_nat n + 3)
          (perToken (memory r1)) (perToken (memory r2)) = true)
    /\ (is_finite (gFloatOps (compute r2)) = true ->
        doubled_within (4 * Z.of_nat n)
          (add_repeatedly n termL 0)
          (add_repeatedly n termL (add_repeatedly n termL 0)) = true).
Proof.
  intros H1 H2 Hs Hkv Hn H2n head_count_kv termK termV termL output.
  pose proof (Array_length_bound _ _ H2n) as Hbound.
  rewrite Nat2Z.inj_mul in Hbound. change (Z.of_nat 2) with 2%Z in Hbound.
  assert (2 ^ 32 < 2 ^ 53)%Z as Hpow by done.
  remember (2 * n)%nat as twice eqn:Htwice.
  rewrite (estimate_of_hparams _ _ _ _ H1), (estimate_of_hparams _ _ _ _ H2).
  simpl. rewrite Hs, Hn, H2n. simpl.
  do 2 eexists. do 2 (split; [done|]). simpl.
  rewrite !cacheMBytes_totals. simpl.
  assert (forall i, effective_head_count_kv (n_head h) (n_head_kv h) i = head_count_kv)
    as Hconst.
  { intros i. unfold head_count_kv.
    by destruct Hkv as [[scalar ->] | ->]. }
  assert (forall m k bits, layer_total m (fun i =>
            k * index_number (n_head_kv_arr m (n_head h) (n_head_kv h)) i
            * (bits / 8) * TO_MEGA)
          = add_repeatedly m (k * head_count_kv * (bits / 8) * 1e-6) 0) as Htotal.
  { intros m k bits. rewrite <- layer_total_constant. apply layer_total_ext.
    intros i Hi. unfold index_number.
    by rewrite n_head_kv_arr_lookup, Hconst. }
  rewrite !Htotal. subst twice.
  fold termK termV.
  change (gFloatOps_layers ?m (n_embd h) (n_ff h)
            (moe_ratio (n_expert_used h) (n_expert h)))
    with (add_repeatedly m termL 0).
  split; [done|]. split; [by rewrite !add_repeatedly_twice|].
  split; [done|].
  split; [by rewrite add_repeatedly_twice|].
  split.
  - intros Hp1 Hp2 Hsign. apply perToken_doubled; try done. lia.
  - intros Hg2. rewrite <- add_repeatedly_twice.
    apply layers_doubled; [|lia].
    by apply add_finite_inv in Hg2 as [Hg2 _].
Qed.

End Properties.

(** ** The theorems at concrete inputs *)

Lemma unsupported_architecture_rejected_witness :
  estimateRuntimeRequirement Sample.F16 Sample.QUANT_SIZES Sample.f16_config
    Sample.mamba None
  = Throws (Error (unsupported_message "mamba-2"))
  /\ exists r, estimateRuntimeRequirement Sample.F16 Sample.QUANT_SIZES
                 Sample.f16_config Sample.llama None = Returns r.
Proof.
  pose proof (unsupported_architecture_rejected Sample.F16 Sample.QUANT_SIZES)
    as (Hreject & _ & _ & _ & Hllama).
  split.
  - apply Hreject; [vm_compute; reflexivity | left; reflexivity].
  - destruct (Hllama Sample.f16_config Sample.llama None eq_refl) as [_ Hreturns].
    eapply Hreturns; [vm_compute; reflexivity | vm_compute; reflexivity].
Defined.

Lemma perToken_formula_witness :
  read_hparams Sample.llama = Returns Sample.llama_hparams
  /\ exists r,
      estimateRuntimeRequirement Sample.F16 Sample.QUANT_SIZES Sample.f16_config
        Sample.llama None = Returns r
      /\ perToken (memory r) =
           layer_total 32 (fun _ => 128 * 32 * (16 / 8) * 1e-6)
           + layer_total 32 (fun _ => 128 * 32 * (16 / 8) * 1e-6).
Proof.
  assert (read_hparams Sample.llama = Returns Sample.llama_hparams) as H
    by (vm_compute; reflexivity).
  split; [exact H|].
  apply (perToken_formula Sample.F16 Sample.QUANT_SIZES Sample.f16_config
           Sample.llama None Sample.llama_hparams 32 H);
    vm_compute; reflexivity.
Defined.

Lemma head_count_kv_resolution_witness :
  length (n_head_kv_arr 3 32 (inl [8; 0])) = 3%nat
  /\ n_head_kv_arr 3 32 (inl [8; 0]) !! 1%nat = Some 32
  /\ n_head_kv_arr 3 32 (inl [8; 0]) !! 2%nat = Some 32.
Proof.
  assert (read_hparams Sample.per_layer = Returns Sample.per_layer_hparams) as H
    by (vm_compute; reflexivity).
  assert (Array_length (n_layer Sample.per_layer_hparams) = Returns 3%nat) as Hn
    by (vm_compute; reflexivity).
  split; [|split].
  - apply (head_count_kv_resolution Sample.per_layer Sample.per_layer_hparams 3 0 H Hn).
    lia.
  - apply (head_count_kv_resolution Sample.per_layer Sample.per_layer_hparams 3 1 H Hn).
    lia.
  - apply (head_count_kv_resolution Sample.per_layer Sample.per_layer_hparams 3 2 H Hn).
    lia.
Defined.

Lemma moe_ratio_formula_witness :
  moe_ratio 2 8 = 1
  /\ exists r,
      estimateRuntimeRequirement Sample.F16 Sample.QUANT_SIZES Sample.f16_config
        Sample.llama None = Returns r
      /\ gFloatOps (compute r) =
           gFloatOps_layers 32 4096 1 (spec_moe_ratio None None)
           + floatOpsMatMul 4096 1 1 * TO_GIGA.
Proof.
  pose proof (moe_ratio_formula Sample.F16 Sample.QUANT_SIZES) as (Hused & _ & Hone).
  split.
  - apply (Hone 2 8); reflexivity.
  - apply (Hused Sample.f16_config Sample.llama None Sample.llama_hparams 32%nat);
      vm_compute; reflexivity.
Defined.

Lemma weight_formula_witness :
  (exists r,
      estimateRuntimeRequirement Sample.F16 Sample.QUANT_SIZES Sample.f16_config
        Sample.llama (Some Sample.tensors) = Returns r
      /\ weight (memory r) = weight_total Sample.QUANT_SIZES Sample.tensors)
  /\ (exists r,
        estimateRuntimeRequirement Sample.F16 Sample.QUANT_SIZES Sample.f16_config
          Sample.llama None = Returns r
        /\ weight (memory r) = 0).
Proof.
  assert (read_hparams Sample.llama = Returns Sample.llama_hparams) as H
    by (vm_compute; reflexivity).
  destruct (weight_formula Sample.F16 Sample.QUANT_SIZES Sample.f16_config
              Sample.llama Sample.llama_hparams 32%nat H eq_refl)
    as [Hsome Hnone]; [vm_compute; reflexivity|].
  split; [apply Hsome | apply Hnone].
Defined.

Lemma absent_architecture_witness :
  Sample.no_architecture !! "general.architecture" = None
  /\ estimateRuntimeRequirement Sample.F16 Sample.QUANT_SIZES Sample.f16_config
       Sample.no_architecture None
     = Returns {| memory := {| perToken := 0; weight := 0 |};
                  compute := {| gFloatOps := 0 |} |}.
Proof.
  assert (Sample.no_architecture !! "general.architecture" = None) as H
    by (vm_compute; reflexivity).
  split; [exact H|].
  destruct (absent_architecture Sample.F16 Sample.QUANT_SIZES Sample.f16_config
              Sample.no_architecture None H) as (_ & _ & Hdefaults).
  apply Hdefaults.
  intros key Hkey. destruct (Sample.no_architecture !! key) as [v|] eqn:Hv; [|done].
  apply elem_of_map_to_list, list_elem_of_In in Hv.
  eassert (map_to_list Sample.no_architecture = _) as Hkeys
    by (vm_compute; reflexivity).
  rewrite Hkeys in Hv. simpl in Hv.
  repeat (destruct Hv as [[= <- <-] | Hv]; [discriminate Hkey|]). destruct Hv.
Defined.

Lemma concrete_scenario_witness :
  Sample.QUANT_SIZES Sample.F16 = 16
  /\ exists r,
      estimateRuntimeRequirement Sample.F16 Sample.QUANT_SIZES Sample.f16_config
        Sample.llama None = Returns r
      /\ perToken (memory r) = 0.52428800000000009.
Proof.
  split; [reflexivity|].
  destruct (concrete_scenario Sample.F16 Sample.QUANT_SIZES eq_refl)
    as (r & Hr & Hp & _).
  exists r. split; [exact Hr | exact Hp].
Defined.

Lemma derived_quantities_not_negative_witness :
  exists r,
    estimateRuntimeRequirement Sample.F16 Sample.QUANT_SIZES Sample.f16_config
      Sample.llama_scored (Some Sample.tensors) = Returns r
    /\ not_negative (perToken (memory r))
    /\ not_negative (weight (memory r))
    /\ not_negative (gFloatOps (compute r)).
Proof.
  assert (read_hparams Sample.llama_scored = Returns Sample.llama_hparams) as H
    by (vm_compute; reflexivity).
  destruct (derived_quantities_not_negative Sample.F16 Sample.QUANT_SIZES
              Sample.f16_config Sample.llama_scored (Some Sample.tensors)
              Sample.llama_hparams 32%nat H eq_refl)
    as (r & Hr & HperToken & Hweight & HgFloatOps & _); [vm_compute; reflexivity|].
  exists r. split; [exact Hr|]. split; [|split].
  - apply HperToken; first [right; reflexivity | intros i _; right; reflexivity].
  - apply Hweight. intros tensor Ht. apply list_elem_of_In in Ht. simpl in Ht.
    repeat (destruct Ht as [<- | Ht];
            [split; [right; reflexivity | repeat constructor; simpl; lia]|]).
    destruct Ht.
  - apply HgFloatOps; right; reflexivity.
Defined.

Lemma doubling_block_count_witness :
  exists r1 r2,
    estimateRuntimeRequirement Sample.F16 Sample.QUANT_SIZES Sample.f16_config
      Sample.llama None = Returns r1
    /\ estimateRuntimeRequirement Sample.F16 Sample.QUANT_SIZES Sample.f16_config
         Sample.llama64 None = Returns r2
    /\ perToken (memory r1) =
         add_repeatedly 32 (128 * 32 * (16 / 8) * 1e-6) 0
         + add_repeatedly 32 (128 * 32 * (16 / 8) * 1e-6) 0
    /\ perToken (memory r2) =
         add_repeatedly 32 (128 * 32 * (16 / 8) * 1e-6)
           (add_repeatedly 32 (128 * 32 * (16 / 8) * 1e-6) 0)
         + add_repeatedly 32 (128 * 32 * (16 / 8) * 1e-6)
             (add_repeatedly 32 (128 * 32 * (16 / 8) * 1e-6) 0)
    /\ doubled_within (4 * 32 + 3) (perToken (memory r1)) (perToken (memory r2))
       = true
    /\ doubled_within (4 * 32) (gFloatOps_layers 32 4096 1 1)
         (gFloatOps_layers 64 4096 1 1) = true.
Proof.
  assert (read_hparams Sample.llama = Returns Sample.llama_hparams) as H1
    by (vm_compute; reflexivity).
  assert (read_hparams Sample.llama64
          = Returns (with_block_count Sample.llama_hparams 64)) as H2
    by (vm_compute; reflexivity).
  destruct (doubling_block_count Sample.F16 Sample.QUANT_SIZES Sample.f16_config
              Sample.llama Sample.llama64 None Sample.llama_hparams 32%nat 64
              H1 H2 eq_refl (or_introl (ex_intro _ 32 eq_refl)))
    as (r1 & r2 & Hr1 & Hr2 & Hp1 & Hp2 & Hg1 & Hg2 & HperToken & Hlayers);
    [vm_compute; reflexivity..|].
  exists r1, r2. do 4 (split; [assumption|]). split.
  - apply HperToken.
    + rewrite Hp1. vm_compute. reflexivity.
    + rewrite Hp2. vm_compute. reflexivity.
    + apply Z.leb_le. vm_compute. reflexivity.
  - apply Hlayers. rewrite Hg2. vm_compute. reflexivity.
Defined.

(** ** Where the specification and the code part *)

(** C3: in the concrete scenario the code returns a [memory.perToken] of
    0.524288 (up to rounding), which is not 1.048576, not even to within
    0.5. *)
Lemma concrete_scenario_counterexample :
  exists r,
    estimateRuntimeRequirement Sample.F16 Sample.QUANT_SIZES Sample.f16_config
      Sample.llama None = Returns r
    /\ perToken (memory r) = 0.52428800000000009
    /\ (abs (perToken (memory r) - 1.048576) <=? 0.5) = false.
Proof. eexists. split; [vm_compute; reflexivity|]. by vm_compute. Qed.

(** C7: with one block and neither head count nor embedding length nor
    key length, [memory.perToken] is [NaN], which is not at least 0; with a
    negative embedding length [compute.gFloatOps] is negative. Neither
    input is rejected. *)
Lemma derived_quantities_counterexample :
  (exists r,
      estimateRuntimeRequirement Sample.F16 Sample.QUANT_SIZES Sample.f16_config
        Sample.one_block None = Returns r
      /\ is_nan (perToken (memory r)) = true
      /\ (0 <=? perToken (memory r)) = false)
  /\ (exists r,
        estimateRuntimeRequirement Sample.F16 Sample.QUANT_SIZES Sample.f16_config
          Sample.negative_width None = Returns r
        /\ (gFloatOps (compute r) <? 0) = true).
Proof.
  split; (eexists; split; [vm_compute; reflexivity|]); by vm_compute.
Qed.

(** From 32 to 64 blocks in the concrete scenario the doubling of
    [memory.perToken] is off by more than 13 and less than 14 parts in
    [2^53], and that of the total of the compute loop by more than one
    part and at most two. *)
Example doubling_error_sample :
  doubled_within 0 0.52428800000000009 1.0485759999999986 = false
  /\ doubled_within 13 0.52428800000000009 1.0485759999999986 = false
  /\ doubled_within 14 0.52428800000000009 1.0485759999999986 = true
  /\ doubled_within 1 (gFloatOps_layers 32 4096 1 1) (gFloatOps_layers 64 4096 1 1)
     = false
  /\ doubled_within 2 (gFloatOps_layers 32 4096 1 1) (gFloatOps_layers 64 4096 1 1)
     = true.
Proof. by vm_compute. Qed.

(** C8: from 32 to 64 blocks in the concrete scenario, neither
    [memory.perToken] nor the per-layer part of [compute.gFloatOps] is
    exactly doubled. With per-layer cache terms of opposite signs the
    doubling fails even roughly: from 3 to 6 blocks, a value length that
    all but cancels the key length makes [memory.perToken] six times what
    it was. *)
Lemma doubling_block_count_counterexample :
  (exists r1 r2,
      estimateRuntimeRequirement Sample.F16 Sample.QUANT_SIZES Sample.f16_config
        Sample.llama None = Returns r1
      /\ estimateRuntimeRequirement Sample.F16 Sample.QUANT_SIZES Sample.f16_config
           Sample.llama64 None = Returns r2
      /\ perToken (memory r1) = 0.52428800000000009
      /\ perToken (memory r2) = 1.0485759999999986
      /\ (perToken (memory r2) =? 2 * perToken (memory r1)) = false
      /\ (gFloatOps (compute r2) - 2 * 4096 * 1 * 1e-9
          =? 2 * (gFloatOps (compute r1) - 2 * 4096 * 1 * 1e-9)) = false
      /\ (gFloatOps_layers 64 4096 1 1 =? 2 * gFloatOps_layers 32 4096 1 1) = false)
  /\ (exists r1 r2,
        estimateRuntimeRequirement Sample.F16 Sample.QUANT_SIZES Sample.f16_config
          (Sample.cancelling 3) None = Returns r1
        /\ estimateRuntimeRequirement Sample.F16 Sample.QUANT_SIZES Sample.f16_config
             (Sample.cancelling 6) None = Returns r2
        /\ perToken (memory r1) = -3.4694469519536142e-18
        /\ perToken (memory r2) = -2.0816681711721685e-17
        /\ (perToken (memory r2) =? 6 * perToken (memory r1)) = true
        /\ doubled_within (2 ^ 53) (perToken (memory r1)) (perToken (memory r2))
           = false).
Proof.
  split; (do 2 eexists; do 2 (split; [vm_compute; reflexivity|]); by vm_compute).
Qed.

(** ** The command line tool: tables *)

Lemma string_length_app (a b : string) :
  String.length (a +:+ b) = (String.length a + String.length b)%nat.
Proof. induction a as [|c a IH]; simpl; [done | by rewrite IH]. Qed.

Lemma repeat_length c n : String.length (JSString.repeat c n) = n.
Proof. induction n as [|n IH]; simpl; [done | by rewrite IH]. Qed.

Lemma padEnd_length s w :
  String.length (JSString.padEnd s w) = Nat.max (String.length s) w.
Proof. unfold JSString.padEnd. rewrite string_length_app, repeat_length. lia. Qed.

Lemma padStart_length s w c :
  String.length (JSString.padStart s w c) = Nat.max (String.length s) w.
Proof. unfold JSString.padStart. rewrite string_length_app, repeat_length. lia. Qed.

(** The length of a joined line: the parts and a separator between each
    two of them. *)
Lemma join_length sep parts :
  String.length (JSString.join sep parts)
  = (sum_list (String.length <$> parts)
     + String.length sep * (length parts - 1))%nat.
Proof.
  unfold JSString.join. induction parts as [|p parts IH]; simpl; [done|].
  destruct parts as [|q parts]; [simpl; lia|].
  rewrite !string_length_app, IH. simpl. lia.
Qed.

Lemma fold_left_max_ge (xs : list nat) (a : nat) :
  (a <= fold_left Nat.max xs a)%nat
  /\ Forall (fun x => x <= fold_left Nat.max xs a)%nat xs.
Proof.
  revert a. induction xs as [|x xs IH]; intros a; simpl; [by split|].
  destruct (IH (Nat.max a x)) as [Ha Hxs]. split; [lia|].
  constructor; [lia | done].
Qed.

Lemma sum_imap_le {A} (f g : nat -> A -> nat) (l : list A) :
  (forall i x, l !! i = Some x -> (f i x <= g i x)%nat) ->
  (sum_list (imap f l) <= sum_list (imap g l))%nat.
Proof.
  revert f g. induction l as [|x l IH]; intros f g Hfg; simpl; [done|].
  specialize (IH (f ∘ S) (g ∘ S) (fun i y Hy => Hfg (S i) y Hy)).
  specialize (Hfg 0%nat x eq_refl). lia.
Qed.

Lemma widthAt_columnWidths rows header i h :
  header !! i = Some h ->
  Cli.widthAt (imap (Cli.columnWidth rows) header) i = Cli.columnWidth rows i h.
Proof. intros Hh. unfold Cli.widthAt. by rewrite list_lookup_imap, Hh. Qed.

(** A column is at least as wide as its header name and as each of its
    cells, unless a cap makes it narrower. *)
Lemma columnWidth_uncapped rows i h :
  Cli.uncapped h = true ->
  (String.length (Cli.name h) <= Cli.columnWidth rows i h)%nat
  /\ (forall row, row ∈ rows ->
                  (String.length (Cli.cell row i) <= Cli.columnWidth rows i h)%nat).
Proof.
  intros Hcap. unfold Cli.columnWidth, Cli.uncapped in *.
  destruct (fold_left_max_ge
              (map (fun row => String.length (Cli.cell row i)) rows)
              (String.length (Cli.name h))) as [Hname Hcells].
  assert (forall row, row ∈ rows ->
            (String.length (Cli.cell row i)
             <= fold_left Nat.max (map (fun row => String.length (Cli.cell row i)) rows)
                  (String.length (Cli.name h)))%nat) as Hrow.
  { intros row Hin. rewrite Forall_forall in Hcells. apply Hcells.
    apply list_elem_of_In, in_map_iff. exists row. split; [done|].
    by apply list_elem_of_In. }
  destruct (Cli.maxWidth h) as [[|w]|]; try done.
Qed.

(** The lines of a table, taken apart. *)
Lemma printTable_lines header rows leftPad line :
  line ∈ Cli.printTable header rows leftPad ->
  exists cells : nat -> Cli.PrintColumnHeader -> string,
    (forall i h, header !! i = Some h ->
       String.length (cells i h) = Cli.columnWidth rows i h
       \/ (exists text,
              (text = Cli.name h \/ exists row, row ∈ rows /\ text = Cli.cell row i)
              /\ String.length (cells i h)
                 = Nat.max (String.length text) (Cli.columnWidth rows i h)))
    /\ String.length line
       = (leftPad + sum_list (imap (fun i h => String.length (cells i h)) header)
          + 3 * (length header - 1))%nat.
Proof.
  unfold Cli.printTable. intros Hline.
  apply elem_of_cons in Hline as [-> | Hline];
    [|apply elem_of_cons in Hline as [-> | Hline]].
  - exists (fun i h => JSString.padEnd (Cli.name h)
                         (Cli.widthAt (imap (Cli.columnWidth rows) header) i)). split.
    + intros i h Hh. right. exists (Cli.name h). split; [by left|].
      by rewrite padEnd_length, (widthAt_columnWidths _ _ _ _ Hh).
    + rewrite string_length_app, repeat_length, join_length, fmap_imap, length_imap.
      unfold compose. simpl. lia.
  - exists (fun i h => JSString.repeat "-" (Cli.columnWidth rows i h)). split.
    + intros i h _. left. apply repeat_length.
    + rewrite string_length_app, repeat_length, join_length.
      rewrite <- list_fmap_compose, fmap_imap, !length_fmap, length_imap.
      unfold compose. simpl. lia.
  - apply list_elem_of_fmap in Hline as (row & -> & Hrow).
    exists (fun i h =>
              if Cli.alignRight h
              then JSString.padStart (Cli.cell row i)
                     (Cli.widthAt (imap (Cli.columnWidth rows) header) i) " "
              else JSString.padEnd (Cli.cell row i)
                     (Cli.widthAt (imap (Cli.columnWidth rows) header) i)). split.
    + intros i h Hh. right. exists (Cli.cell row i). split; [right; eauto|].
      rewrite (widthAt_columnWidths _ _ _ _ Hh).
      destruct (Cli.alignRight h); [apply padStart_length | apply padEnd_length].
    + rewrite string_length_app, repeat_length, join_length, fmap_imap, length_imap.
      unfold compose. simpl. lia.
Qed.

(** X1: [printTable] logs the header line, the separator line and one
    line per row. The separator line is [tableWidth] long, and no line is
    shorter: a header name or a cell that is longer than a capped column
    is not cut, it makes its line longer. *)
Theorem printTable_never_narrower header rows leftPad :
  length (Cli.printTable header rows leftPad) = (2 + length rows)%nat
  /\ (exists separator,
        Cli.printTable header rows leftPad !! 1%nat = Some separator
        /\ String.length separator = Cli.tableWidth header rows leftPad)
  /\ (forall line, line ∈ Cli.printTable header rows leftPad ->
                   (Cli.tableWidth header rows leftPad <= String.length line)%nat).
Proof.
  split; [|split].
  - unfold Cli.printTable. simpl. by rewrite length_fmap.
  - eexists. split; [done|]. unfold Cli.tableWidth.
    rewrite string_length_app, repeat_length, join_length.
    rewrite <- list_fmap_compose, fmap_imap, !length_fmap, length_imap.
    unfold compose. simpl.
    assert (imap (fun n x => String.length (JSString.repeat "-" (Cli.columnWidth rows n x)))
              header = imap (Cli.columnWidth rows) header) as ->; [|lia].
    apply imap_ext. intros i h _. apply repeat_length.
  - intros line Hline.
    apply printTable_lines in Hline as (cells & Hcells & ->).
    unfold Cli.tableWidth.
    enough (sum_list (imap (Cli.columnWidth rows) header)
            <= sum_list (imap (fun i h => String.length (cells i h)) header))%nat by lia.
    apply sum_imap_le. intros i h Hh.
    destruct (Hcells i h Hh) as [-> | (text & _ & ->)]; lia.
Qed.

(** X2: when no column has a cap, every line that [printTable] logs has
    the same length, [tableWidth]: the columns line up. *)
Theorem printTable_aligned header rows leftPad line :
  forallb Cli.uncapped header = true ->
  line ∈ Cli.printTable header rows leftPad ->
  String.length line = Cli.tableWidth header rows leftPad.
Proof.
  intros Hcaps Hline.
  apply printTable_lines in Hline as (cells & Hcells & ->).
  unfold Cli.tableWidth. do 3 f_equal.
  apply imap_ext. intros i h Hh.
  assert (Cli.uncapped h = true) as Hcap.
  { rewrite forallb_forall in Hcaps. apply Hcaps, list_elem_of_In.
    by apply list_elem_of_lookup_2 with i. }
  destruct (columnWidth_uncapped rows i h Hcap) as [Hname Hrows].
  destruct (Hcells i h Hh) as [-> | (text & [-> | (row & Hrow & ->)] & ->)];
    [done | lia | specialize (Hrows row Hrow); lia].
Qed.

(** ** The command line tool: values and shapes *)

Lemma substring_0_length n s :
  String.length (String.substring 0 n s) = Nat.min n (String.length s).
Proof.
  revert s. induction n as [|n IH]; intros [|c s]; simpl; try done.
  by rewrite IH.
Qed.

Lemma substring_0_app n s t :
  (n <= String.length s)%nat ->
  String.substring 0 n (s +:+ t) = String.substring 0 n s.
Proof.
  revert s. induction n as [|n IH]; intros [|c s] Hn; simpl in *; try done; try lia.
  - by destruct t.
  - rewrite IH; [done | lia].
Qed.

Lemma substring_0_idem n s :
  String.substring 0 n (String.substring 0 n s) = String.substring 0 n s.
Proof.
  revert s. induction n as [|n IH]; intros [|c s]; simpl; try done.
  by rewrite IH.
Qed.

(** X3: a value shown in the metadata table is never longer than
    [MAX_LEN + 3] code units; it is shown whole when it has at most
    [MAX_LEN]; its first [MAX_LEN] code units are always those of the
    value; and cutting twice is cutting once. *)
Theorem truncateValue_bounded strVal :
  (String.length (Cli.truncateValue strVal) <= Cli.MAX_LEN + 3)%nat
  /\ ((String.length strVal <= Cli.MAX_LEN)%nat -> Cli.truncateValue strVal = strVal)
  /\ JSString.slice_to (Cli.truncateValue strVal) Cli.MAX_LEN
     = JSString.slice_to strVal Cli.MAX_LEN
  /\ Cli.truncateValue (Cli.truncateValue strVal) = Cli.truncateValue strVal.
Proof.
  unfold Cli.truncateValue, JSString.slice_to.
  destruct (Cli.MAX_LEN <? String.length strVal)%nat eqn:Hlong.
  - apply Nat.ltb_lt in Hlong.
    assert (String.length (String.substring 0 Cli.MAX_LEN strVal) = Cli.MAX_LEN) as Hcut.
    { rewrite substring_0_length. lia. }
    rewrite string_length_app, Hcut.
    repeat split.
    + simpl. lia.
    + lia.
    + rewrite substring_0_app by lia. apply substring_0_idem.
    + change (Cli.MAX_LEN <? Cli.MAX_LEN + String.length "...")%nat with true.
      cbv iota. rewrite substring_0_app by lia. by rewrite substring_0_idem.
  - rewrite Hlong. apply Nat.ltb_ge in Hlong.
    repeat split; [lia | done..].
Qed.

Lemma displayShape_fold (dims : list Z) (k : nat) (acc : list Z) :
  (k <= length acc)%nat ->
  fold_left (fun (acc : list Z) '(i, dim) =>
               if decide (i < length acc)%nat then <[i := dim]> acc else acc ++ [dim])
            (imap (fun i dim => ((k + i)%nat, dim)) dims) acc
  = take k acc ++ dims ++ drop (k + length dims) acc.
Proof.
  revert k acc. induction dims as [|d dims IH]; intros k acc Hk.
  - simpl. by rewrite Nat.add_0_r, take_drop.
  - rewrite imap_cons. simpl.
    assert (imap ((fun i dim => ((k + i)%nat, dim)) ∘ S) dims
            = imap (fun i dim => ((S k + i)%nat, dim)) dims) as ->.
    { apply imap_ext. intros i x _. simpl. f_equal. lia. }
    rewrite Nat.add_0_r. case_decide as Hlt.
    + rewrite IH by (rewrite length_insert; lia).
      rewrite drop_insert_lt by lia.
      rewrite (take_S_r _ _ d) by (apply list_lookup_insert_eq; lia).
      rewrite take_insert_ge by lia. rewrite <- app_assoc. simpl.
      do 4 f_equal. lia.
    + assert (k = length acc) as -> by lia.
      rewrite IH by (rewrite length_app; simpl; lia).
      rewrite (take_ge (acc ++ [d])) by (rewrite length_app; simpl; lia).
      rewrite (take_ge acc) by lia.
      rewrite !drop_ge by (rewrite ?length_app; simpl; lia).
      by rewrite <- app_assoc.
Qed.

Lemma displayShape_eq shape :
  Cli.displayShape shape = shape ++ drop (length shape) [1; 1; 1; 1]%Z.
Proof.
  unfold Cli.displayShape.
  apply (displayShape_fold shape 0 [1; 1; 1; 1]%Z). simpl. lia.
Qed.

(** X4: the shape shown for a tensor is its shape filled up with ones to
    four dimensions (and left as it is beyond four), and the element count
    shown is the product that [estimateRuntimeRequirement] narrows for the
    weight of the tensor. *)
Theorem displayElements_is_element_count shape :
  Cli.displayShape shape = shape ++ replicate (4 - length shape) 1%Z
  /\ length (Cli.displayShape shape) = Nat.max 4 (length shape)
  /\ Cli.displayElements shape = fold_left Z.mul shape 1%Z.
Proof.
  assert (Cli.displayShape shape = shape ++ replicate (4 - length shape) 1%Z) as Hshape.
  { rewrite displayShape_eq. f_equal.
    by destruct shape as [|? [|? [|? [|? [|? ?]]]]]. }
  split; [done|]. split.
  - rewrite Hshape, length_app, length_replicate. lia.
  - unfold Cli.displayElements. rewrite Hshape, fold_left_app.
    change (fun acc n : Z => (acc * n)%Z) with Z.mul.
    generalize (fold_left Z.mul shape 1%Z). intros z.
    induction (4 - length shape)%nat as [|n IH] in z |- *; simpl; [done|].
    rewrite Z.mul_1_r. apply IH.
Qed.

(** ** The command line tool: arguments *)

Lemma last_default_irrelevant {A} (l : list A) (x d d' : A) :
  List.last (x :: l) d = List.last (x :: l) d'.
Proof.
  revert x. induction l as [|y l IH]; intros x; [done|].
  change (List.last (y :: l) d = List.last (y :: l) d'). apply IH.
Qed.

Lemma last_cons_default {A} (l : list A) (a d : A) :
  List.last (a :: l) d = List.last l a.
Proof. destruct l as [|x l]; [done|]. apply (last_default_irrelevant l x d a). Qed.

Section CliArguments.

Variable StringToNumber : string -> float.

Local Abbreviation parseArgs := (Cli.parseArgs StringToNumber).

(** Reading the arguments is reading a first part and then the rest, as
    long as the first part does not end on a context flag that still
    waits for its value. *)
Lemma parseArgs_app pre post o :
  Cli.dangling pre = false ->
  parseArgs (pre ++ post) o =
    match parseArgs pre o with
    | Cli.Continue o' => parseArgs post o'
    | exit => exit
    end.
Proof.
  remember (length pre) as n eqn:Hn. revert pre o Hn.
  induction n as [n IH] using lt_wf_ind. intros [|a pre] o Hn Hd; [done|].
  simpl in *. destruct (Cli.isHelp a); [done|].
  destruct (Cli.isShowTensor a); [apply (IH (length pre)); [lia | done..]|].
  destruct (Cli.isContext a); [|apply (IH (length pre)); [lia | done..]].
  destruct pre as [|value pre]; [discriminate|].
  simpl in *. apply (IH (length pre)); [lia | done..].
Qed.

(** X5: the argument that follows a context flag is always taken as the
    context length, whatever it is: it is read neither as a flag nor as
    the path, and the arguments after it are read as usual. A context flag
    in last position sets the context length to [NaN]. *)
Theorem context_flag_takes_next pre flag o :
  Cli.dangling pre = false ->
  Cli.isContext flag = true ->
  (forall value post,
      parseArgs (pre ++ flag :: value :: post) o =
        match parseArgs pre o with
        | Cli.Continue o' =>
            parseArgs post {| Cli.ggufPath := Cli.ggufPath o';
                              Cli.showTensors := Cli.showTensors o';
                              Cli.nCtx := StringToNumber value |}
        | exit => exit
        end)
  /\ parseArgs (pre ++ [flag]) o =
       match parseArgs pre o with
       | Cli.Continue o' =>
           Cli.Continue {| Cli.ggufPath := Cli.ggufPath o';
                           Cli.showTensors := Cli.showTensors o';
                           Cli.nCtx := nan |}
       | exit => exit
       end.
Proof.
  intros Hd Hflag.
  assert (Cli.isHelp flag = false /\ Cli.isShowTensor flag = false) as [Hh Hs].
  { unfold Cli.isContext, Cli.isHelp, Cli.isShowTensor in *.
    apply orb_true_iff in Hflag as [Hf | Hf]; apply String.eqb_eq in Hf; by subst. }
  split; [intros value post|]; rewrite parseArgs_app by done;
    destruct (parseArgs pre o); [|done| |done]; simpl; by rewrite Hh, Hs, Hflag.
Qed.

(** Without a help flag among them, the arguments are read to the end. *)
Lemma parseArgs_without_help args o :
  existsb Cli.isHelp args = false ->
  exists o', parseArgs args o = Cli.Continue o'.
Proof.
  remember (length args) as n eqn:Hn. revert args o Hn.
  induction n as [n IH] using lt_wf_ind. intros [|a args] o Hn Hhelp; [by eexists|].
  simpl in *. apply orb_false_iff in Hhelp as [-> Hhelp].
  destruct (Cli.isShowTensor a); [apply (IH (length args)); [lia | done..]|].
  destruct (Cli.isContext a); [|apply (IH (length args)); [lia | done..]].
  destruct args as [|value args]; [by eexists|].
  simpl in *. apply orb_false_iff in Hhelp as [_ Hhelp].
  apply (IH (length args)); [lia | done..].
Qed.

(** X6: [main] leaves through [process.exit] only with code 0 or 1. When
    neither [--help] nor [-h] is among the arguments it never leaves with
    code 0: it goes on with a path that is not empty, or it leaves with
    code 1 after the missing-path message and the usage. *)
Theorem readArguments_exit_codes argv :
  (forall stderr exitCode,
      Cli.readArguments StringToNumber argv = Cli.Exit stderr exitCode ->
      exitCode = 0%Z \/ exitCode = 1%Z)
  /\ (existsb Cli.isHelp (drop 2 argv) = false ->
      (exists o, Cli.readArguments StringToNumber argv = Cli.Continue o
                 /\ Cli.ggufPath o <> EmptyString)
      \/ Cli.readArguments StringToNumber argv
         = Cli.showHelp ["Error: Missing path to gguf file"] 1).
Proof.
  unfold Cli.readArguments. split.
  - intros stderr exitCode.
    generalize {| Cli.ggufPath := ""; Cli.showTensors := false; Cli.nCtx := 4096 |}.
    generalize (drop 2 argv). intros args.
    remember (length args) as n eqn:Hn. revert args Hn.
    induction n as [n IH] using lt_wf_ind.
    intros [|a args] Hn o; simpl.
    + destruct (String.length _ =? 0)%nat; [|done]. intros [= _ <-]. by right.
    + destruct (Cli.isHelp a); [intros [= _ <-]; by left|].
      destruct (Cli.isShowTensor a); [apply (IH (length args)); simpl in *; lia|].
      destruct (Cli.isContext a); [|apply (IH (length args)); simpl in *; lia].
      destruct args as [|value args]; simpl.
      * destruct (String.length _ =? 0)%nat; [|done]. intros [= _ <-]. by right.
      * apply (IH (length args)); simpl in *; lia.
  - intros Hhelp.
    destruct (parseArgs_without_help (drop 2 argv)
                {| Cli.ggufPath := ""; Cli.showTensors := false; Cli.nCtx := 4096 |}
                Hhelp) as [o ->].
    destruct (String.length (Cli.ggufPath o) =? 0)%nat eqn:Hpath; [by right|].
    left. exists o. split; [done|]. intros Hempty. by rewrite Hempty in Hpath.
Qed.

(** X7: without help and context flags, the path is the last argument that
    is not [--show-tensor] (the path before the loop if there is none),
    tensors are shown exactly when [--show-tensor] is among the arguments
    or was set before, and the context length is left as it was. *)
Theorem parseArgs_without_context args o :
  existsb Cli.isHelp args = false ->
  existsb Cli.isContext args = false ->
  parseArgs args o = Cli.Continue {|
    Cli.ggufPath := List.last (filter (fun a => Cli.isShowTensor a = false) args)
                              (Cli.ggufPath o);
    Cli.showTensors := Cli.showTensors o || existsb Cli.isShowTensor args;
    Cli.nCtx := Cli.nCtx o |}.
Proof.
  revert o. induction args as [|a args IH]; intros o Hhelp Hctx; simpl in *.
  - rewrite orb_false_r. by destruct o.
  - apply orb_false_iff in Hhelp as [-> Hhelp].
    apply orb_false_iff in Hctx as [Hctx' Hctx].
    destruct (Cli.isShowTensor a) eqn:Hshow.
    + rewrite IH by done. simpl. rewrite filter_cons_False by congruence.
      by rewrite orb_true_r.
    + rewrite Hctx', IH by done. simpl. rewrite filter_cons_True by done.
      by rewrite last_cons_default.
Qed.

End CliArguments.

(** ** The SHA-256 wrapper *)

Lemma byteLength_subarray_from_0 data n :
  Sha256.subarray data 0 n = take (N.to_nat n) data.
Proof.
  unfold Sha256.subarray, Sha256.byteLength.
  rewrite N.min_0_l, N.sub_0_r. simpl.
  destruct (N.min_spec n (N.of_nat (length data))) as [[Hlt ->] | [Hge ->]].
  - done.
  - rewrite Nat2N.id. change (drop (N.to_nat 0) data) with data.
    rewrite !take_ge; [done | lia..].
Qed.

Lemma subarray_empty data begin end_ :
  (end_ <= begin)%N -> Sha256.subarray data begin end_ = [].
Proof.
  intros Hle. unfold Sha256.subarray.
  replace (N.min end_ (Sha256.byteLength data) - N.min begin (Sha256.byteLength data))%N
    with 0%N by lia.
  done.
Qed.

(** After the first chunk: every further chunk writes nothing to the
    buffer, and the lengths passed on add up to what is left. *)
Lemma updateLoop_later maxSize heapLength data byteUsed effects :
  (N.pos maxSize <= byteUsed)%N ->
  exists lengths,
    Sha256.updateLoop maxSize heapLength data byteUsed effects
    = Returns (effects ++ flat_map Sha256.staleChunk lengths)
    /\ Forall (fun n => 1 <= n <= N.pos maxSize)%N lengths
    /\ fold_right N.add 0%N lengths = (Sha256.byteLength data - byteUsed)%N.
Proof.
  funelim (Sha256.updateLoop maxSize heapLength data byteUsed effects);
    intros Hused.
  - simpl.
    set (len := if (Sha256.byteLength data - byteUsed <? N.pos maxSize)%N
                then (Sha256.byteLength data - byteUsed)%N else N.pos maxSize) in *.
    assert (1 <= len <= N.pos maxSize /\ len <= Sha256.byteLength data - byteUsed)%N
      as [Hlen Hleft].
    { unfold len. destruct (N.ltb_spec (Sha256.byteLength data - byteUsed)
                                        (N.pos maxSize)); lia. }
    clear Heqcall. rewrite subarray_empty in * by lia. simpl.
    destruct H as (lengths & Hloop & Hbounds & Hsum); [lia|].
    exists (len :: lengths). split; [|split].
    + assert ((Sha256.byteLength [] <=? heapLength)%N = true) as ->
        by (apply N.leb_le; unfold Sha256.byteLength; simpl; lia).
      rewrite Hloop. simpl. by rewrite <- app_assoc.
    + by constructor.
    + simpl. rewrite Hsum. lia.
  - exists []. split; [by rewrite app_nil_r|]. split; [done|]. simpl. lia.
Qed.

Lemma updateLengths_cons e effects :
  Sha256.updateLengths (e :: effects) =
    match e with
    | Sha256.Hash_Update n => n :: Sha256.updateLengths effects
    | _ => Sha256.updateLengths effects
    end.
Proof. by destruct e. Qed.

Lemma heapWrites_cons e effects :
  Sha256.heapWrites (e :: effects) =
    match e with
    | Sha256.HeapSet source => source ++ Sha256.heapWrites effects
    | _ => Sha256.heapWrites effects
    end.
Proof. by destruct e. Qed.

Lemma updateLengths_stale lengths :
  Sha256.updateLengths (flat_map Sha256.staleChunk lengths) = lengths.
Proof.
  induction lengths as [|n lengths IH]; [done|].
  change (flat_map Sha256.staleChunk (n :: lengths))
    with (Sha256.HeapSet [] :: Sha256.Hash_Update n :: flat_map Sha256.staleChunk lengths).
  by rewrite !updateLengths_cons, IH.
Qed.

Lemma heapWrites_stale lengths :
  Sha256.heapWrites (flat_map Sha256.staleChunk lengths) = [].
Proof.
  induction lengths as [|n lengths IH]; [done|].
  change (flat_map Sha256.staleChunk (n :: lengths))
    with (Sha256.HeapSet [] :: Sha256.Hash_Update n :: flat_map Sha256.staleChunk lengths).
  by rewrite !heapWrites_cons, IH.
Qed.

(** One turn of the loop. *)
Lemma updateLoop_step maxSize heapLength data byteUsed effects :
  Sha256.updateLoop maxSize heapLength data byteUsed effects =
    if decide (byteUsed < Sha256.byteLength data)%N then
      let bytesLeft := (Sha256.byteLength data - byteUsed)%N in
      let length := if (bytesLeft <? N.pos maxSize)%N then bytesLeft else N.pos maxSize in
      let source := Sha256.subarray data byteUsed length in
      if (Sha256.byteLength source <=? heapLength)%N
      then Sha256.updateLoop maxSize heapLength data (byteUsed + length)
             (effects ++ [Sha256.HeapSet source; Sha256.Hash_Update length])
      else Throws (RangeError "offset is out of bounds")
    else Returns effects.
Proof.
  rewrite Sha256.updateLoop_equation_1.
  destruct (decide (byteUsed < Sha256.byteLength data)%N);
    [apply Sha256.updateLoop_clause_1_equation_1 | done].
Qed.

(** What [update] does, chunk by chunk: the first chunk is written to the
    buffer if it fits there, the later ones are not written at all. *)
Lemma updateWith_effects maxSize heapLength data :
  let first := N.min (Sha256.byteLength data) (N.pos maxSize) in
  Sha256.updateWith maxSize heapLength data =
    if decide (data = []) then Returns []
    else if (first <=? heapLength)%N then
      Sha256.updateLoop maxSize heapLength data first
        [Sha256.HeapSet (take (N.to_nat first) data); Sha256.Hash_Update first]
    else Throws (RangeError "offset is out of bounds").
Proof.
  intros first. unfold Sha256.updateWith. rewrite updateLoop_step.
  destruct (decide (0 < Sha256.byteLength data)%N) as [Hpos | Hzero]; simpl.
  - rewrite decide_False
      by (intros ->; unfold Sha256.byteLength in Hpos; simpl in Hpos; lia).
    rewrite N.sub_0_r, N.add_0_l.
    assert ((if (Sha256.byteLength data <? N.pos maxSize)%N
             then Sha256.byteLength data else N.pos maxSize) = first) as ->.
    { unfold first. destruct (N.ltb_spec (Sha256.byteLength data) (N.pos maxSize)); lia. }
    rewrite byteLength_subarray_from_0.
    assert (Sha256.byteLength (take (N.to_nat first) data) = first) as ->; [|done].
    unfold Sha256.byteLength in *. rewrite length_take. lia.
  - rewrite decide_True; [done|].
    destruct data; [done|]. unfold Sha256.byteLength in Hzero. simpl in Hzero. lia.
Qed.

(** X8: data that is not longer than [BUFFER_MAX_SIZE] and fits the
    buffer goes to the hash in one piece: it is written to the buffer and
    [_Hash_Update] is called once, with its length. Empty data causes no
    call at all. *)
Theorem update_single_chunk heapLength data :
  (Sha256.byteLength data <= N.pos Sha256.BUFFER_MAX_SIZE)%N ->
  (Sha256.byteLength data <= heapLength)%N ->
  Sha256.update heapLength data =
    if decide (data = []) then Returns []
    else Returns [Sha256.HeapSet data; Sha256.Hash_Update (Sha256.byteLength data)].
Proof.
  intros Hmax Hfits. unfold Sha256.update. rewrite updateWith_effects.
  case_decide; [done|].
  rewrite N.min_l by done.
  assert ((Sha256.byteLength data <=? heapLength)%N = true) as -> by by apply N.leb_le.
  rewrite updateLoop_step, decide_False by lia. simpl.
  f_equal. f_equal. f_equal. unfold Sha256.byteLength.
  rewrite Nat2N.id. by apply take_ge.
Qed.

(** X9: when [update] returns, the lengths passed to [_Hash_Update] add up
    to the length of the data, and each is at least 1 and at most the
    chunk size: every byte is counted once. *)
Theorem update_lengths maxSize heapLength data effects :
  Sha256.updateWith maxSize heapLength data = Returns effects ->
  fold_right N.add 0%N (Sha256.updateLengths effects) = Sha256.byteLength data
  /\ Forall (fun n => 1 <= n <= N.pos maxSize)%N (Sha256.updateLengths effects).
Proof.
  rewrite updateWith_effects. case_decide as Hdata.
  - intros [= <-]. by subst.
  - destruct (_ <=? heapLength)%N; [|discriminate].
    set (first := N.min (Sha256.byteLength data) (N.pos maxSize)).
    assert (1 <= first)%N as Hfirst.
    { unfold first, Sha256.byteLength. destruct data; [done | simpl; lia]. }
    destruct (N.le_gt_cases (N.pos maxSize) first) as [Hlater | Hdone].
    + destruct (updateLoop_later maxSize heapLength data first
                  [Sha256.HeapSet (take (N.to_nat first) data); Sha256.Hash_Update first]
                  Hlater) as (lengths & -> & Hbounds & Hsum).
      intros [= <-]. cbn [app]. rewrite !updateLengths_cons, updateLengths_stale.
      split; [simpl; rewrite Hsum; lia|]. constructor; [lia | done].
    + rewrite updateLoop_step, decide_False by lia. simpl.
      intros [= <-]. simpl. split; [lia|]. constructor; [lia | done].
Qed.

(** X10: when [update] returns, the bytes it has written to the buffer
    are the first chunk of the data and nothing else: [data.subarray] is
    given the chunk length as its end, so every chunk after the first is
    an empty view, and [_Hash_Update] is called for it on a buffer that
    still holds the first chunk. *)
Theorem update_writes_first_chunk_only maxSize heapLength data effects :
  Sha256.updateWith maxSize heapLength data = Returns effects ->
  Sha256.heapWrites effects = Sha256.subarray data 0 (N.pos maxSize)
  /\ (data <> [] ->
      exists lengths,
        effects = Sha256.HeapSet (Sha256.subarray data 0 (N.pos maxSize))
                    :: Sha256.Hash_Update
                         (N.min (Sha256.byteLength data) (N.pos maxSize))
                    :: flat_map Sha256.staleChunk lengths).
Proof.
  rewrite updateWith_effects. case_decide as Hdata.
  - intros [= <-]. by subst.
  - destruct (_ <=? heapLength)%N; [|discriminate].
    set (first := N.min (Sha256.byteLength data) (N.pos maxSize)).
    assert (take (N.to_nat first) data = Sha256.subarray data 0 (N.pos maxSize)) as Hfirst.
    { rewrite byteLength_subarray_from_0. unfold first, Sha256.byteLength.
      destruct (N.min_spec (N.of_nat (length data)) (N.pos maxSize)) as [[? ->] | [? ->]];
        [|done].
      rewrite Nat2N.id, !take_ge; [done | lia..]. }
    rewrite Hfirst.
    assert (forall lengths,
              Sha256.heapWrites
                (Sha256.HeapSet (Sha256.subarray data 0 (N.pos maxSize))
                   :: Sha256.Hash_Update first :: flat_map Sha256.staleChunk lengths)
              = Sha256.subarray data 0 (N.pos maxSize)) as Hwrites.
    { intros lengths. rewrite !heapWrites_cons, heapWrites_stale. apply app_nil_r. }
    destruct (N.le_gt_cases (N.pos maxSize) first) as [Hlater | Hdone].
    + destruct (updateLoop_later maxSize heapLength data first
                  [Sha256.HeapSet (Sha256.subarray data 0 (N.pos maxSize));
                   Sha256.Hash_Update first]
                  Hlater) as (lengths & -> & _).
      intros [= <-]. simpl. split; [apply Hwrites|]. intros _. by exists lengths.
    + rewrite updateLoop_step, decide_False by lia.
      intros [= <-]. split; [apply (Hwrites [])|]. intros _. by exists [].
Qed.

(** X11: [update] throws exactly when the first chunk is longer than the
    buffer, and what it throws then is the [RangeError] of [heap.set]: the
    later chunks, being empty views, always fit. *)
Theorem update_throws maxSize heapLength data e :
  Sha256.updateWith maxSize heapLength data = Throws e <->
  (heapLength < N.min (Sha256.byteLength data) (N.pos maxSize))%N
  /\ e = RangeError "offset is out of bounds".
Proof.
  rewrite updateWith_effects. case_decide as Hdata.
  - subst. split; [discriminate|]. unfold Sha256.byteLength. simpl. lia.
  - set (first := N.min (Sha256.byteLength data) (N.pos maxSize)).
    destruct (N.leb_spec first heapLength) as [Hfits | Hlong].
    + split; [|lia]. intros Hthrow. exfalso.
      assert (1 <= first)%N as Hfirst.
      { unfold first, Sha256.byteLength. destruct data; [done | simpl; lia]. }
      destruct (N.le_gt_cases (N.pos maxSize) first) as [Hlater | Hdone].
      * destruct (updateLoop_later maxSize heapLength data first
                    [Sha256.HeapSet (take (N.to_nat first) data);
                     Sha256.Hash_Update first]
                    Hlater) as (lengths & Hloop & _).
        congruence.
      * revert Hthrow. rewrite updateLoop_step, decide_False by lia. done.
    + split; [intros [= <-]; by split | intros [_ ->]; done].
Qed.

Lemma join_empty_cons part parts :
  JSString.join "" (part :: parts) = part +:+ JSString.join "" parts.
Proof.
  unfold JSString.join. destruct parts as [|q parts]; simpl; [|done].
  induction part as [|c part IH]; [done|].
  change (String c part = String c (part +:+ "")). by f_equal.
Qed.

Lemma unhex_byte b rest :
  Sha256.unhex (JSString.padStart (Sha256.toString16 b) 2 "0" +:+ rest)
  = (bytes ← Sha256.unhex rest; Some (b :: bytes)).
Proof. destruct b; reflexivity. Qed.

Lemma hex_byte_length b :
  String.length (JSString.padStart (Sha256.toString16 b) 2 "0") = 2%nat.
Proof. destruct b; reflexivity. Qed.

(** X12: the hexadecimal string of the digest spells its bytes: it has two
    digits per byte, reading it back gives the bytes, and so two different
    results never give the same string. [digest("hex")] returns 64 code
    units when the buffer holds at least 32 bytes. *)
Theorem hex_round_trip :
  (forall result,
      Sha256.unhex (Sha256.hex result) = Some result
      /\ String.length (Sha256.hex result) = (2 * length result)%nat)
  /\ (forall a b, Sha256.hex a = Sha256.hex b -> a = b)
  /\ (forall heap effects text,
        (32 <= length heap)%nat ->
        Sha256.digest "hex" heap = Returns (effects, text) ->
        effects = [Sha256.Hash_Final] /\ String.length text = 64%nat
        /\ Sha256.unhex text = Some (take 32 heap)).
Proof.
  assert (forall result,
      Sha256.unhex (Sha256.hex result) = Some result
      /\ String.length (Sha256.hex result) = (2 * length result)%nat) as Hround.
  { intros result. unfold Sha256.hex.
    induction result as [|b result [IHun IHlen]]; [done|].
    cbn [map]. rewrite join_empty_cons. split.
    - by rewrite unhex_byte, IHun.
    - rewrite string_length_app, hex_byte_length, IHlen. simpl. lia. }
  split; [done|]. split.
  - intros a b Hab. destruct (Hround a) as [Ha _], (Hround b) as [Hb _].
    rewrite Hab in Ha. congruence.
  - intros heap effects text Hheap. unfold Sha256.digest. simpl. intros [= <- <-].
    destruct (Hround (take 32 heap)) as [Hun Hlen].
    split; [done|]. split; [|done]. rewrite Hlen, length_take. lia.
Qed.

(** ** The tool and the wrapper at concrete inputs *)

Example printTable_sample :
  Cli.printTable ToolSample.header ToolSample.rows 2 =
    [ "  Idx | Value                       ";
      "  ----|-----------------------------";
      "    1 | general.architecture = llama";
      "   12 |                             " ]
  /\ Cli.printTable ToolSample.cappedHeader ToolSample.rows 2 =
    [ "  Idx | Value";
      "  ----|-----";
      "    1 | general.architecture = llama";
      "   12 |     " ].
Proof. by vm_compute. Qed.

Lemma printTable_aligned_witness :
  forallb Cli.uncapped ToolSample.header = true
  /\ String.length "    1 | general.architecture = llama"
     = Cli.tableWidth ToolSample.header ToolSample.rows 2.
Proof.
  split; [reflexivity|].
  apply (printTable_aligned ToolSample.header ToolSample.rows 2); [reflexivity|].
  apply list_elem_of_lookup_2 with 2%nat. vm_compute. reflexivity.
Defined.

Lemma truncateValue_bounded_witness :
  (String.length "llama" <= Cli.MAX_LEN)%nat
  /\ Cli.truncateValue "llama" = "llama".
Proof.
  assert (String.length "llama" <= Cli.MAX_LEN)%nat as H by (vm_compute; lia).
  split; [exact H|].
  apply (proj1 (proj2 (truncateValue_bounded "llama")) H).
Defined.

Lemma context_flag_takes_next_witness :
  Cli.parseArgs ToolSample.StringToNumber
    ["--show-tensor"; "-c"; "--help"; "model.gguf"]
    {| Cli.ggufPath := ""; Cli.showTensors := false; Cli.nCtx := 4096 |}
  = Cli.Continue {| Cli.ggufPath := "model.gguf"; Cli.showTensors := true;
                    Cli.nCtx := nan |}.
Proof.
  destruct (context_flag_takes_next ToolSample.StringToNumber ["--show-tensor"] "-c"
              {| Cli.ggufPath := ""; Cli.showTensors := false; Cli.nCtx := 4096 |}
              eq_refl eq_refl) as [Hnext _].
  apply (Hnext "--help" ["model.gguf"]).
Defined.

Lemma readArguments_exit_codes_witness :
  existsb Cli.isHelp (drop 2 ["node"; "cli.js"; "--show-tensor"]) = false
  /\ Cli.readArguments ToolSample.StringToNumber ["node"; "cli.js"; "--show-tensor"]
     = Cli.showHelp ["Error: Missing path to gguf file"] 1.
Proof.
  split; [reflexivity|].
  destruct (proj2 (readArguments_exit_codes ToolSample.StringToNumber
                     ["node"; "cli.js"; "--show-tensor"]) eq_refl)
    as [(o & Ho & Hpath) | Hexit]; [|exact Hexit].
  exfalso. apply Hpath. vm_compute in Ho. discriminate Ho.
Defined.

Lemma parseArgs_without_context_witness :
  Cli.parseArgs ToolSample.StringToNumber ["a.gguf"; "--show-tensor"; "b.gguf"]
    {| Cli.ggufPath := ""; Cli.showTensors := false; Cli.nCtx := 4096 |}
  = Cli.Continue {| Cli.ggufPath := "b.gguf"; Cli.showTensors := true;
                    Cli.nCtx := 4096 |}.
Proof.
  apply (parseArgs_without_context ToolSample.StringToNumber
           ["a.gguf"; "--show-tensor"; "b.gguf"]
           {| Cli.ggufPath := ""; Cli.showTensors := false; Cli.nCtx := 4096 |});
    reflexivity.
Defined.

Lemma update_single_chunk_witness :
  Sha256.update 1024 (ToolSample.bytes [1; 2; 3]%N)
  = Returns [Sha256.HeapSet (ToolSample.bytes [1; 2; 3]%N); Sha256.Hash_Update 3].
Proof.
  apply (update_single_chunk 1024 (ToolSample.bytes [1; 2; 3]%N)); vm_compute; discriminate.
Defined.

Example update_stale_chunks :
  Sha256.updateWith 4 1024 ToolSample.tenBytes
  = Returns [ Sha256.HeapSet (ToolSample.bytes [1; 2; 3; 4]%N); Sha256.Hash_Update 4;
              Sha256.HeapSet []; Sha256.Hash_Update 4;
              Sha256.HeapSet []; Sha256.Hash_Update 2 ].
Proof. by vm_compute. Qed.

Lemma update_lengths_witness :
  fold_right N.add 0%N [4; 4; 2]%N = Sha256.byteLength ToolSample.tenBytes
  /\ Forall (fun n => 1 <= n <= 4)%N [4; 4; 2]%N.
Proof.
  apply (update_lengths 4 1024 ToolSample.tenBytes
           [ Sha256.HeapSet (ToolSample.bytes [1; 2; 3; 4]%N); Sha256.Hash_Update 4;
             Sha256.HeapSet []; Sha256.Hash_Update 4;
             Sha256.HeapSet []; Sha256.Hash_Update 2 ]).
  vm_compute. reflexivity.
Defined.

Lemma update_writes_first_chunk_only_witness :
  Sha256.heapWrites
    [ Sha256.HeapSet (ToolSample.bytes [1; 2; 3; 4]%N); Sha256.Hash_Update 4;
      Sha256.HeapSet []; Sha256.Hash_Update 4;
      Sha256.HeapSet []; Sha256.Hash_Update 2 ]
  = Sha256.subarray ToolSample.tenBytes 0 4.
Proof.
  apply (update_writes_first_chunk_only 4 1024 ToolSample.tenBytes).
  vm_compute. reflexivity.
Defined.

Lemma hex_round_trip_witness :
  String.length (Sha256.hex (take 32 (replicate 40 Byte.xab))) = 64%nat
  /\ Sha256.unhex (Sha256.hex (take 32 (replicate 40 Byte.xab)))
     = Some (take 32 (replicate 40 Byte.xab)).
Proof.
  destruct hex_round_trip as (_ & _ & Hdigest).
  destruct (Hdigest (replicate 40 Byte.xab) [Sha256.Hash_Final]
              (Sha256.hex (take 32 (replicate 40 Byte.xab))))
    as (_ & Hlen & Hun); [vm_compute; lia | reflexivity |].
  split; [exact Hlen | exact Hun].
Defined.

(** ** The memory report *)

Lemma is_nan_eq x : is_nan x = true -> x = nan.
Proof.
  unfold is_nan. rewrite FloatAxioms.eqb_spec. intros H.
  rewrite <- (SF2Prim_Prim2SF x).
  destruct (Prim2SF x) as [s|s| |s m e] eqn:Hx; try reflexivity.
  - by destruct s.
  - by destruct s.
  - exfalso. unfold SFeqb in H.
    rewrite SFcompare_refl in H; [discriminate | discriminate].
Qed.

Lemma mul_nan_r x : x * nan = nan.
Proof.
  apply is_nan_eq. unfold is_nan. rewrite FloatAxioms.eqb_spec, mul_spec.
  change (Prim2SF nan) with S754_nan.
  by destruct (Prim2SF x) as [[]|[]| |[] ? ?].
Qed.

Lemma add_nan_l x : nan + x = nan.
Proof.
  apply is_nan_eq. unfold is_nan. rewrite FloatAxioms.eqb_spec, add_spec.
  change (Prim2SF nan) with S754_nan.
  by destruct (Prim2SF x) as [[]|[]| |[] ? ?].
Qed.

Lemma add_nan_r x : x + nan = nan.
Proof.
  apply is_nan_eq. unfold is_nan. rewrite FloatAxioms.eqb_spec, add_spec.
  change (Prim2SF nan) with S754_nan.
  by destruct (Prim2SF x) as [[]|[]| |[] ? ?].
Qed.

Lemma div_nan_l x : nan / x = nan.
Proof.
  apply is_nan_eq. unfold is_nan. rewrite FloatAxioms.eqb_spec, div_spec.
  change (Prim2SF nan) with S754_nan.
  by destruct (Prim2SF x) as [[]|[]| |[] ? ?].
Qed.

Section ReportProperties.

Variable GGMLQuantizationType : Type.
Variable F16 : GGMLQuantizationType.
Variable GGML_QUANT_SIZES : GGMLQuantizationType -> float.
Variable toFixed : float -> nat -> string.

(** What the estimator throws is the rejection of line 41 or the
    [RangeError] of [Array(n_layer)]. *)
Lemma estimate_Throws_inv config md tensorInfos e :
  estimateRuntimeRequirement F16 GGML_QUANT_SIZES config md tensorInfos = Throws e ->
  (exists arch,
      lookup_or as_string md "general.architecture" "unknown" = Returns arch
      /\ unsupported arch = true /\ e = Error (unsupported_message arch))
  \/ e = RangeError "Invalid array length".
Proof.
  destruct e as [m|m]; intros H.
  - left. apply estimate_Error_inv in H as (a & Ha & Hs & ->). eauto.
  - right. revert H. unfold estimateRuntimeRequirement.
    destruct (lookup_or as_string _ _ _) as [a|e|] eqn:Ha; simpl; [| |discriminate].
    2: { by apply lookup_or_not_Throws in Ha; [|intros ? []]. }
    destruct (unsupported a) eqn:Hs; [discriminate|].
    repeat read_or_fail.
    unfold Array_length.
    destruct (integer_value _) as [v|]; simpl; [|by intros [= <-]].
    destruct (_ && _); simpl; [|by intros [= <-]].
    destruct (cacheMBytes _ _ _ _ _ _ _).
    repeat read_or_fail.
    discriminate.
Qed.


(** X14: a context length that is [NaN] (a context flag in last position,
    or a value that [Number] does not read) does not stop the report: the
    rows "KV cache", "Overhead" and "TOTAL" are made from [NaN], and only
    the row "Weight" still shows a quantity of the model. *)
Theorem nan_context_report estimation nCtx :
  is_nan nCtx = true ->
  Report.memoryRows toFixed (Report.memoryUsage estimation nCtx) =
    [ ["KV cache"; toFixed nan 2 +:+ " GB"];
      ["Weight"; toFixed (weight (memory estimation) / 1e6) 2 +:+ " GB"];
      ["Overhead"; toFixed nan 2 +:+ " GB"];
      [""; "---"];
      ["TOTAL"; toFixed nan 2 +:+ " GB"] ].
Proof.
  intros ->%is_nan_eq.
  unfold Report.memoryRows, Report.memoryUsage. cbn [Report.kvUsageMB
    Report.modelWeightMB Report.totalMemoryUsage Report.batchMB Report.overheadMB].
  by rewrite mul_nan_r, !add_nan_l, !add_nan_r, !add_nan_l, !div_nan_l.
Qed.

End ReportProperties.


Lemma nan_context_report_witness :
  is_nan (Cli.Number ToolSample.StringToNumber None) = true
  /\ Report.memoryRows ToolSample.toFixed
       (Report.memoryUsage
          {| memory := {| perToken := 0.52428800000000009; weight := 13.5 |};
             compute := {| gFloatOps := 1 |} |}
          (Cli.Number ToolSample.StringToNumber None))
     = [ ["KV cache"; "NaN GB"]; ["Weight"; "0.00 GB"]; ["Overhead"; "NaN GB"];
         [""; "---"]; ["TOTAL"; "NaN GB"] ].
Proof.
  split; [reflexivity|].
  apply (nan_context_report ToolSample.toFixed
           {| memory := {| perToken := 0.52428800000000009; weight := 13.5 |};
              compute := {| gFloatOps := 1 |} |}
           (Cli.Number ToolSample.StringToNumber None)).
  reflexivity.
Defined.
